(** * autopilot: the file scanner (src/modules/fsInput.js) and the manifest
      store (src/modules/db.js), embedded in Rocq.

    The JavaScript is embedded shallowly.  Exceptions are an explicit
    [result]; the module-level counters of fsInput.js are passed as a
    [Progress] state; the SQLite table is a finite map keyed by its
    primary key, inside a [World] that also holds the console.  What the
    code takes from elsewhere (Node's [path] module of the host, the
    tokenizer, the hash, the environment lists) is a parameter of the
    sections, with concrete instances for the examples. *)

From Stdlib Require Import ZArith Ascii String List Bool.
From stdpp Require Import base option list gmap strings fin_maps.

Set Warnings "-register-all".

Local Open Scope string_scope.
Local Open Scope list_scope.

(** ** Completions: a JavaScript call returns or throws *)

Inductive result (E A : Type) : Type :=
| Ok (v : A)
| Throw (e : E).
Arguments Ok {E A} v.
Arguments Throw {E A} e.

Definition is_ok {E A} (r : result E A) : bool :=
  match r with Ok _ => true | Throw _ => false end.

(** ** Strings as JavaScript uses them here *)

Module Js.

Definition slash : ascii := "/"%char.
Definition backslash : ascii := "\"%char.
Definition dot : ascii := "."%char.

(** [s.split(c)] for a one-character separator: always at least one piece. *)
Fixpoint split (c : ascii) (s : string) : list string :=
  match s with
  | EmptyString => [EmptyString]
  | String a rest =>
      if Ascii.eqb a c then EmptyString :: split c rest
      else match split c rest with
           | [] => [String a EmptyString]
           | piece :: pieces => String a piece :: pieces
           end
  end.

(** [pieces.join(sep)] *)
Definition join (sep : string) (pieces : list string) : string :=
  String.concat sep pieces.

(** [s.replace(/\\/g, '/')]: every backslash becomes a forward slash. *)
Fixpoint replace_backslashes (s : string) : string :=
  match s with
  | EmptyString => EmptyString
  | String a rest =>
      String (if Ascii.eqb a backslash then slash else a) (replace_backslashes rest)
  end.

(** [s.includes(c)] for one character. *)
Fixpoint has_char (c : ascii) (s : string) : bool :=
  match s with
  | EmptyString => false
  | String a rest => Ascii.eqb a c || has_char c rest
  end.

(** [arr.includes(x)] on an array of strings. *)
Definition includes (arr : list string) (x : string) : bool :=
  existsb (String.eqb x) arr.

(** [s.slice(s.lastIndexOf(c))] when [c] occurs in [s]: the suffix of
    [s] that starts at its last [c]. *)
Fixpoint from_last (c : ascii) (s : string) : option string :=
  match s with
  | EmptyString => None
  | String a rest =>
      match from_last c rest with
      | Some suffix => Some suffix
      | None => if Ascii.eqb a c then Some s else None
      end
  end.

Definition nonempty (s : string) : bool :=
  match s with EmptyString => false | _ => true end.

End Js.

(** ** Node's [path.posix]

    [getFilePaths] and [getFiles] call [path.posix.join] whatever the host
    is, so it is modelled once, after lib/path.js of Node: the arguments
    are glued with a slash and the result is normalized. *)

Module Posix.

(** [normalizeString]: drop empty and [.] segments, let [..] cancel the
    segment before it; [acc] is the result so far, last segment first. *)
Fixpoint normalizeSegments (allowAboveRoot : bool) (segs acc : list string) : list string :=
  match segs with
  | [] => rev acc
  | seg :: rest =>
      if String.eqb seg EmptyString || String.eqb seg "." then
        normalizeSegments allowAboveRoot rest acc
      else if String.eqb seg ".." then
        match acc with
        | last :: before =>
            if negb (String.eqb last "..") then normalizeSegments allowAboveRoot rest before
            else if allowAboveRoot then normalizeSegments allowAboveRoot rest (seg :: acc)
            else normalizeSegments allowAboveRoot rest acc
        | [] =>
            if allowAboveRoot then normalizeSegments allowAboveRoot rest [seg]
            else normalizeSegments allowAboveRoot rest []
        end
      else normalizeSegments allowAboveRoot rest (seg :: acc)
  end.

Definition isAbsolute (p : string) : bool :=
  match p with String a _ => Ascii.eqb a Js.slash | EmptyString => false end.

Fixpoint endsWithSlash (p : string) : bool :=
  match p with
  | EmptyString => false
  | String a EmptyString => Ascii.eqb a Js.slash
  | String _ rest => endsWithSlash rest
  end.

Definition normalize (p : string) : string :=
  if String.eqb p EmptyString then "."
  else
    let absolute := isAbsolute p in
    let trailing := endsWithSlash p in
    let body := Js.join "/" (normalizeSegments (negb absolute) (Js.split Js.slash p) []) in
    if String.eqb body EmptyString then
      if absolute then "/" else if trailing then "./" else "."
    else
      let body := if trailing then String.append body "/" else body in
      if absolute then String.append "/" body else body.

(** [path.posix.join(a, b)] *)
Definition join (a b : string) : string :=
  match List.filter Js.nonempty [a; b] with
  | [] => "."
  | parts => normalize (Js.join "/" parts)
  end.

(** The last non-empty segment: what [extname] looks at. *)
Definition lastSegment (segs : list string) : string :=
  List.last (List.filter Js.nonempty segs) EmptyString.

(** [path.extname] on an already isolated last segment: from the last
    dot on, unless there is no dot, the only dot leads the name, or the
    name is [..]. *)
Definition extnameOfSegment (b : string) : string :=
  match Js.from_last Js.dot b with
  | None => EmptyString
  | Some ext =>
      if String.eqb ext b then EmptyString
      else if String.eqb b ".." then EmptyString
      else ext
  end.

Definition extname (p : string) : string :=
  extnameOfSegment (lastSegment (Js.split Js.slash p)).

(** [path.posix.relative(from, to)] for absolute paths: the segments of
    [to] after the common prefix, behind one [..] per segment left of
    [from].  A path that is not absolute is not taken from the working
    directory here; [relativeFrom] below does that. *)
Fixpoint stripCommon (eqb : string -> string -> bool) (from to : list string)
  : list string * list string :=
  match from, to with
  | f :: from', t :: to' =>
      if eqb f t then stripCommon eqb from' to' else (from, to)
  | _, _ => (from, to)
  end.

Definition relativeSegments (eqb : string -> string -> bool) (from to : list string)
  : list string :=
  let '(up, down) := stripCommon eqb from to in
  List.map (fun _ => "..") up ++ down.

Definition relative (from to : string) : string :=
  Js.join "/"
    (relativeSegments String.eqb
       (normalizeSegments false (Js.split Js.slash from) [])
       (normalizeSegments false (Js.split Js.slash to) [])).

(** The segments of [path.posix.resolve(p)] in a process whose working
    directory is [cwd], itself absolute: a path that is not absolute is
    taken from [cwd]; the result never climbs above the root. *)
Definition resolve (cwd p : string) : list string :=
  normalizeSegments false
    (if isAbsolute p then Js.split Js.slash p
     else Js.split Js.slash cwd ++ Js.split Js.slash p) [].

(** [path.posix.relative(from, to)]: both paths are resolved, then the
    common leading segments go.  For absolute paths this is [relative],
    whatever the working directory. *)
Definition relativeFrom (cwd from to : string) : string :=
  Js.join "/" (relativeSegments String.eqb (resolve cwd from) (resolve cwd to)).

(** A name [readdir] can return: not empty, not [.] or [..], no slash. *)
Definition plain (name : string) : Prop :=
  name <> EmptyString /\ name <> "." /\ name <> ".." /\
  Js.has_char Js.slash name = false.

End Posix.

(** ** Node's [path.win32], as far as [parseFileContent] needs it

    On a Windows host [path.extname] and [path.relative] accept both
    separators, compare without case, and [relative] answers with
    backslashes.  [relative] takes its paths as absolute and on one
    drive; [relativeFrom] resolves them first, against the working
    directory and its drive. *)

Module Win32.

Definition isSep (a : ascii) : bool :=
  Ascii.eqb a Js.slash || Ascii.eqb a Js.backslash.

Fixpoint split (s : string) : list string :=
  match s with
  | EmptyString => [EmptyString]
  | String a rest =>
      if isSep a then EmptyString :: split rest
      else match split rest with
           | [] => [String a EmptyString]
           | piece :: pieces => String a piece :: pieces
           end
  end.

Definition lowerChar (a : ascii) : ascii :=
  let n := nat_of_ascii a in
  if (65 <=? n)%nat && (n <=? 90)%nat then ascii_of_nat (n + 32) else a.

Fixpoint toLowerCase (s : string) : string :=
  match s with
  | EmptyString => EmptyString
  | String a rest => String (lowerChar a) (toLowerCase rest)
  end.

Definition eqbNoCase (a b : string) : bool :=
  String.eqb (toLowerCase a) (toLowerCase b).

Definition isLetter (a : ascii) : bool :=
  let n := nat_of_ascii a in
  ((65 <=? n)%nat && (n <=? 90)%nat) || ((97 <=? n)%nat && (n <=? 122)%nat).

(** The path after a leading drive, as in [C:]. *)
Definition afterDrive (p : string) : string :=
  match p with
  | String a (String b rest) =>
      if isLetter a && Ascii.eqb b ":"%char then rest else p
  | _ => p
  end.

Definition extname (p : string) : string :=
  Posix.extnameOfSegment (Posix.lastSegment (split (afterDrive p))).

Definition relative (from to : string) : string :=
  Js.join "\"
    (Posix.relativeSegments eqbNoCase
       (Posix.normalizeSegments false (split from) [])
       (Posix.normalizeSegments false (split to) [])).

(** A leading drive such as [C:] and what follows it. *)
Definition driveOf (p : string) : option (string * string) :=
  match p with
  | String a (String b rest) =>
      if isLetter a && Ascii.eqb b ":"%char
      then Some (String a (String b EmptyString), rest)
      else None
  | _ => None
  end.

Definition startsWithSep (p : string) : bool :=
  match p with String a _ => isSep a | EmptyString => false end.

Definition startsWithTwoSeps (p : string) : bool :=
  match p with String a rest => isSep a && startsWithSep rest | EmptyString => false end.

(** The segments of [path.win32.resolve(p)], the drive first, in a
    process whose working directory [cwd] is on a drive.  An empty path
    is [cwd]; a path with a drive and a separator is absolute; a path
    that starts with one separator is taken from the drive of [cwd]; any
    other path without a drive is taken from [cwd].  A path with a drive
    and no separator after it (it is taken from that drive's own working
    directory) and a path with a UNC root are not modelled: [None]. *)
Definition resolve (cwd p : string) : option (list string) :=
  match driveOf cwd with
  | Some (cwdDrive, cwdTail) =>
      if negb (startsWithSep cwdTail) then None
      else
        match driveOf p with
        | Some (drive, tail) =>
            if startsWithSep tail
            then Some (drive :: Posix.normalizeSegments false (split tail) [])
            else None
        | None =>
            if startsWithTwoSeps p then None
            else if startsWithSep p
            then Some (cwdDrive :: Posix.normalizeSegments false (split p) [])
            else Some (cwdDrive ::
                       Posix.normalizeSegments false (split cwdTail ++ split p) [])
        end
  | None => None
  end.

(** [path.win32.relative(from, to)] for paths that [resolve] models: on
    one drive, the common leading segments go, compared without case;
    across drives the answer is the resolved [to]. *)
Definition relativeFrom (cwd from to : string) : string :=
  match resolve cwd from, resolve cwd to with
  | Some (fromDrive :: fromSegs), Some (toDrive :: toSegs) =>
      if eqbNoCase fromDrive toDrive
      then Js.join "\" (Posix.relativeSegments eqbNoCase fromSegs toSegs)
      else String.append toDrive (String.append "\" (Js.join "\" toSegs))
  | _, _ => to
  end.

End Win32.

(** The host's [path] module: [path.extname], [path.relative] and the
    separator [path.sep] that [relative] writes between segments. *)
Class HostPath := {
  path_sep : string;
  path_extname : string -> string;
  path_relative : string -> string -> string
}.

(** The hosts on absolute paths, where the working directory plays no
    part. *)
Definition posix_host : HostPath :=
  {| path_sep := "/"; path_extname := Posix.extname; path_relative := Posix.relative |}.

Definition win32_host : HostPath :=
  {| path_sep := "\"; path_extname := Win32.extname; path_relative := Win32.relative |}.

(** The two kinds of host, and the [path] module of a process of that
    kind running in the working directory [cwd]. *)
Inductive Platform : Type := PosixPlatform | Win32Platform.

Definition hostAt (os : Platform) (cwd : string) : HostPath :=
  match os with
  | PosixPlatform =>
      {| path_sep := "/"; path_extname := Posix.extname;
         path_relative := Posix.relativeFrom cwd |}
  | Win32Platform =>
      {| path_sep := "\"; path_extname := Win32.extname;
         path_relative := Win32.relativeFrom cwd |}
  end.

(** Where a path leads on a host: the segments of its resolved form, a
    Windows path with its drive first. *)
Definition resolveAt (os : Platform) (cwd p : string) : option (list string) :=
  match os with
  | PosixPlatform => Some (Posix.resolve cwd p)
  | Win32Platform => Win32.resolve cwd p
  end.

(** Two spellings of one segment: the same text, on Windows up to case. *)
Definition sameSegment (os : Platform) (a b : string) : bool :=
  match os with
  | PosixPlatform => String.eqb a b
  | Win32Platform => Win32.eqbNoCase a b
  end.

(** ** The filesystem

    A directory tree.  A node is what a path denotes: a regular file with
    its text and modification time, a file that cannot be read, a
    directory with its listing, a directory that cannot be listed, or a
    name for which [stat] fails (removed after it was listed, or a
    dangling link). *)

Inductive node : Type :=
| File (content : string) (mtimeMs : Z)
| SealedFile (mtimeMs : Z)
| Dir (mtimeMs : Z) (entries : list (string * node))
| SealedDir (mtimeMs : Z)
| Vanished.

Inductive errno : Type := ENOENT | EACCES | ENOTDIR | EISDIR.

(** The error Node's [fs] throws: code, system call, offending path. *)
Record FilesystemError : Type := {
  err_code : errno;
  err_syscall : string;
  err_path : string
}.

Record Stats : Type := { isDirectory : bool; mtimeMs : Z }.

(** [fs.statSync(p)] when [p] denotes [n]. *)
Definition statSync (p : string) (n : node) : result FilesystemError Stats :=
  match n with
  | File _ m | SealedFile m => Ok {| isDirectory := false; mtimeMs := m |}
  | Dir m _ | SealedDir m => Ok {| isDirectory := true; mtimeMs := m |}
  | Vanished => Throw {| err_code := ENOENT; err_syscall := "stat"; err_path := p |}
  end.

(** What [fs.readdirSync(p)] throws when [p] denotes [n] and [n] is not
    a directory that can be listed. *)
Definition scandirError (p : string) (n : node) : FilesystemError :=
  {| err_code := match n with
                 | SealedDir _ => EACCES
                 | Vanished => ENOENT
                 | _ => ENOTDIR
                 end;
     err_syscall := "scandir";
     err_path := p |}.

(** [fs.readdirSync(p)] when [p] denotes [n]: the names in listing
    order, each with the node it denotes. *)
Definition readdirSync (p : string) (n : node)
  : result FilesystemError (list (string * node)) :=
  match n with
  | Dir _ entries => Ok entries
  | _ => Throw (scandirError p n)
  end.

(** The filesystem seen from a root path. *)
Record Filesystem : Type := { fs_root : string; fs_tree : node }.

(** The node a path denotes: the tree is walked with the paths
    [path.posix.join] builds, as the scanner builds them. *)
Fixpoint resolve (at_path : string) (n : node) (p : string) : option node :=
  if String.eqb at_path p then Some n
  else
    match n with
    | Dir _ entries =>
        (fix among (es : list (string * node)) : option node :=
           match es with
           | [] => None
           | (name, child) :: rest =>
               match resolve (Posix.join at_path name) child p with
               | Some found => Some found
               | None => among rest
               end
           end) entries
    | _ => None
    end.

Definition lookup_path (fs : Filesystem) (p : string) : option node :=
  resolve (fs_root fs) (fs_tree fs) p.

(** [fs.statSync(p)] and [fs.readFileSync(p, 'utf-8')] on the ambient
    filesystem. *)
Definition fs_statSync (fs : Filesystem) (p : string) : result FilesystemError Stats :=
  match lookup_path fs p with
  | Some n => statSync p n
  | None => Throw {| err_code := ENOENT; err_syscall := "stat"; err_path := p |}
  end.

Definition fs_readFileSync (fs : Filesystem) (p : string) : result FilesystemError string :=
  match lookup_path fs p with
  | Some (File content _) => Ok content
  | Some (SealedFile _) => Throw {| err_code := EACCES; err_syscall := "open"; err_path := p |}
  | Some (Dir _ _) | Some (SealedDir _) =>
      Throw {| err_code := EISDIR; err_syscall := "read"; err_path := p |}
  | Some Vanished | None =>
      Throw {| err_code := ENOENT; err_syscall := "open"; err_path := p |}
  end.

(** Whether [fs.readFileSync(p)] returns text of positive length. *)
Definition readsText (fs : Filesystem) (p : string) : bool :=
  match fs_readFileSync fs p with
  | Ok content => Js.nonempty content
  | Throw _ => false
  end.

(** ** fsInput.js *)

(** [totalFiles] and [completedFiles], the counters of the module. *)
Record Progress : Type := { totalFiles : nat; completedFiles : nat }.

Definition add_total (k : nat) (st : Progress) : Progress :=
  {| totalFiles := totalFiles st + k; completedFiles := completedFiles st |}.

Definition incr_completed (st : Progress) : Progress :=
  {| totalFiles := totalFiles st; completedFiles := S (completedFiles st) |}.

(** What [parseFileContent] returns. *)
Record FileRecord : Type := {
  filePath : string;
  fileContent : string;
  fileTokensCount : Z;
  fileHash : string;
  fileTimestamp : Z
}.

(** JavaScript values, as far as the file objects of [getFiles] hold
    them, and the test [if (v)] makes of one. *)
Inductive JsValue : Type :=
| JsUndefined
| JsNull
| JsBool (b : bool)
| JsNumber (z : Z)
| JsString (s : string).

Definition truthy (v : JsValue) : bool :=
  match v with
  | JsUndefined | JsNull => false
  | JsBool b => b
  | JsNumber z => negb (z =? 0)%Z
  | JsString s => Js.nonempty s
  end.

(** A file object of [getFiles]: its properties by name. *)
Abbreviation FileObject := (gmap string JsValue).

(** [o.name]: a property an object lacks reads as [undefined]. *)
Definition prop (o : gmap string JsValue) (name : string) : JsValue :=
  default JsUndefined (o !! name).

Inductive JsError : Type :=
| FsError (e : FilesystemError)
| TypeError (argument : string).

Definition newFileCode : string := "// This is a new file".

Section FsInput.

Context {host : HostPath}.

(** [process.env.IGNORE_LIST.split(',')] and
    [process.env.FILE_EXTENSIONS_TO_PROCESS.split(',')] *)
Variable ignoreList : list string.
Variable fileExtensionsToProcess : list string.

(** [./tokenHelper] and [./hashing], modules of the repository that the
    scanner only calls. *)
Variable countTokens : string -> Z.
Variable hashFile : string -> string.

(** [getFilePaths(dir)], with [t] the node that [dir] denotes.  The
    console trace is left out; [totalFiles] is threaded. *)
Fixpoint getFilePaths (dir : string) (t : node) (st : Progress)
  : result FilesystemError (list string) * Progress :=
  match t with
  | Dir _ files =>
      (fix each (files : list (string * node)) (projectFiles : list string)
           (st : Progress) : result FilesystemError (list string) * Progress :=
         match files with
         | [] => (Ok projectFiles, add_total (length projectFiles) st)
         | (file, child) :: rest =>
             let filePath := Posix.join dir file in
             match statSync filePath child with
             | Throw e => (Throw e, st)
             | Ok stats =>
                 if isDirectory stats && negb (Js.includes ignoreList file) then
                   match getFilePaths filePath child st with
                   | (Ok found, st') => each rest (projectFiles ++ found) st'
                   | (Throw e, st') => (Throw e, st')
                   end
                 else if Js.includes fileExtensionsToProcess (path_extname filePath) then
                   each rest (projectFiles ++ [filePath]) st
                 else each rest projectFiles st
             end
         end) files [] st
  | _ => (Throw (scandirError dir t), st)
  end.

(** The body of the [for (const file of files)] loop of [getFilePaths],
    on its own. *)
Fixpoint scanEntries (dir : string) (files : list (string * node))
  (projectFiles : list string) (st : Progress)
  : result FilesystemError (list string) * Progress :=
  match files with
  | [] => (Ok projectFiles, add_total (length projectFiles) st)
  | (file, child) :: rest =>
      let filePath := Posix.join dir file in
      match statSync filePath child with
      | Throw e => (Throw e, st)
      | Ok stats =>
          if isDirectory stats && negb (Js.includes ignoreList file) then
            match getFilePaths filePath child st with
            | (Ok found, st') => scanEntries dir rest (projectFiles ++ found) st'
            | (Throw e, st') => (Throw e, st')
            end
          else if Js.includes fileExtensionsToProcess (path_extname filePath) then
            scanEntries dir rest (projectFiles ++ [filePath]) st
          else scanEntries dir rest projectFiles st
      end
  end.

(** [parseFileContent(dir, filePathFull, fileContent)] *)
Definition parseFileContent (fs : Filesystem) (dir filePathFull fileContent : string)
  : result FilesystemError FileRecord :=
  let fileTokensCount := countTokens fileContent in
  let fileHash := hashFile fileContent in
  let relativePath := Js.replace_backslashes (path_relative dir filePathFull) in
  match fs_statSync fs filePathFull with
  | Throw e => Throw e
  | Ok stats =>
      Ok {| filePath := relativePath;
            fileContent := fileContent;
            fileTokensCount := fileTokensCount;
            fileHash := fileHash;
            fileTimestamp := mtimeMs stats |}
  end.

(** The [for (const filePath of filePaths)] loop of [loadFiles].
    [updateProgressBar] only writes to the console and is left out with
    it; [completedFiles] is threaded. *)
Fixpoint loadEach (fs : Filesystem) (dir : string) (filePaths : list string)
  (files : list FileRecord) (st : Progress)
  : result FilesystemError (list FileRecord) * Progress :=
  match filePaths with
  | [] => (Ok files, st)
  | filePath :: rest =>
      match fs_readFileSync fs filePath with
      | Throw e => (Throw e, st)
      | Ok fileContent =>
          if negb (Js.nonempty fileContent) || (String.length fileContent =? 0)%nat then
            loadEach fs dir rest files st
          else
            match parseFileContent fs dir filePath fileContent with
            | Throw e => (Throw e, st)
            | Ok file => loadEach fs dir rest (files ++ [file]) (incr_completed st)
            end
      end
  end.

(** [loadFiles(dir)] *)
Definition loadFiles (fs : Filesystem) (dir : string) (st : Progress)
  : result FilesystemError (list FileRecord) * Progress :=
  match getFilePaths dir (default Vanished (lookup_path fs dir)) st with
  | (Throw e, st') => (Throw e, st')
  | (Ok filePaths, st') => loadEach fs dir filePaths [] st'
  end.

(** [getFiles(codeBaseDirectory, files)].  The loop assigns [file.code]
    on the object it was given and pushes that same object; the model
    gives the objects of the returned array. *)
Fixpoint getFilesEach (fs : Filesystem) (codeBaseDirectory : string)
  (files retFiles : list FileObject) : result JsError (list FileObject) :=
  match files with
  | [] => Ok retFiles
  | file :: rest =>
      match prop file "filePath" with
      | JsString filePathRelative =>
          let filePathFull := Posix.join codeBaseDirectory filePathRelative in
          if truthy (prop file "exists") then
            match fs_readFileSync fs filePathFull with
            | Throw e => Throw (FsError e)
            | Ok fileContent =>
                getFilesEach fs codeBaseDirectory rest
                  (retFiles ++ [<["code" := JsString fileContent]> file])
            end
          else
            getFilesEach fs codeBaseDirectory rest
              (retFiles ++ [<["code" := JsString newFileCode]> file])
      | _ => Throw (TypeError "path")
      end
  end.

Definition getFiles (fs : Filesystem) (codeBaseDirectory : string)
  (files : list FileObject) : result JsError (list FileObject) :=
  getFilesEach fs codeBaseDirectory files [].

End FsInput.

(** *** What the scan touches

    The scan lists the root; it stats every entry of a directory it
    lists; it lists every entry that is a directory and is not ignored. *)

Inductive Access : Type := ByStat | ByScandir.

Definition attempt (a : Access) (p : string) (n : node) : option FilesystemError :=
  match a with
  | ByStat => match statSync p n with Throw e => Some e | Ok _ => None end
  | ByScandir => match readdirSync p n with Throw e => Some e | Ok _ => None end
  end.

Definition isDir (n : node) : bool :=
  match n with Dir _ _ | SealedDir _ => true | _ => false end.

Inductive encounters (ignoreList : list string)
  : string -> node -> Access -> string -> node -> Prop :=
| enc_root dir t :
    encounters ignoreList dir t ByScandir dir t
| enc_entry dir m files file child :
    In (file, child) files ->
    encounters ignoreList dir (Dir m files) ByStat (Posix.join dir file) child
| enc_below dir m files file child a p n :
    In (file, child) files ->
    isDir child = true ->
    Js.includes ignoreList file = false ->
    encounters ignoreList (Posix.join dir file) child a p n ->
    encounters ignoreList dir (Dir m files) a p n.

(** The error [e] is the failure of a path the scan of [t] at [dir]
    encounters, and carries that path. *)
Definition offending (ignoreList : list string) (dir : string) (t : node)
  (e : FilesystemError) : Prop :=
  exists a n, encounters ignoreList dir t a (err_path e) n /\
              attempt a (err_path e) n = Some e.

(** No path the scan of [t] at [dir] encounters fails. *)
Definition unfailing (ignoreList : list string) (dir : string) (t : node) : Prop :=
  forall a p n, encounters ignoreList dir t a p n -> attempt a p n = None.

(** The entry named [name], denoting [n], that the scan of [t] at [dir]
    finds at path [p]: an entry of the root, or an entry found by the
    scan of a subdirectory that is not ignored. *)
Inductive scannedEntry (ignoreList : list string)
  : string -> node -> string -> string -> node -> Prop :=
| entry_here dir m files file child :
    In (file, child) files ->
    scannedEntry ignoreList dir (Dir m files) (Posix.join dir file) file child
| entry_below dir m files file child p name n :
    In (file, child) files ->
    isDir child = true ->
    Js.includes ignoreList file = false ->
    scannedEntry ignoreList (Posix.join dir file) child p name n ->
    scannedEntry ignoreList dir (Dir m files) p name n.

(** Every listing of the tree holds names as [readdir] returns them. *)
Fixpoint wellNamed (t : node) : Prop :=
  match t with
  | Dir _ files =>
      (fix each (files : list (string * node)) : Prop :=
         match files with
         | [] => True
         | (file, child) :: rest => Posix.plain file /\ wellNamed child /\ each rest
         end) files
  | _ => True
  end.

(** A directory with its listing taken away. *)
Definition emptied (n : node) : node :=
  match n with
  | Dir m _ => Dir m []
  | _ => n
  end.

(** The tree with every ignored directory emptied. *)
Fixpoint prune (ignoreList : list string) (t : node) : node :=
  match t with
  | Dir m files =>
      Dir m
        ((fix each (files : list (string * node)) : list (string * node) :=
            match files with
            | [] => []
            | (file, child) :: rest =>
                (file,
                 if Js.includes ignoreList file then emptied child
                 else prune ignoreList child) :: each rest
            end) files)
  | _ => t
  end.

(** ** db.js

    The table [files] of one database file is a finite map from its
    primary key [path] to the row.  [sqlite3] queues a statement and
    calls back later with an error or with none; whether a statement
    fails is the environment's choice, kept in the world as the outcomes
    of the statements to come.  The model runs a statement and its
    callback where the console shows them.

    Every function of db.js opens a connection of its own and returns
    before its statement has run, so the statements of two calls may run
    in either order.  The world after a call is the world once the
    statement of that call has run; it says nothing of the order in which
    the statements of several calls run, and the facts below are about
    one call, or about calls whose statements commute. *)

Record Row : Type := {
  path : string;
  tokensCount : Z;
  summary : string;
  summaryTokensCount : Z;
  hash : string;
  timestamp : Z;
  dependenciesLibs : string
}.

(** A row of [SELECT path, hash, timestamp FROM files]. *)
Record ManifestRow : Type := {
  m_path : string;
  m_hash : string;
  m_timestamp : Z
}.

(** The error [sqlite3] hands to a callback. *)
Record StoreError : Type := { store_code : string; store_message : string }.

Inductive ConsoleLine : Type :=
| Connected (dbFilePath : string)
| TableCreated
| TableCreateError (err : StoreError)
| FileUpserted (filePath : string)
| UpsertError (err : StoreError)
| FileDeleted (filePath : string)
| DeleteError (err : StoreError)
| FilesRetrieved (rows : list ManifestRow).

Record World : Type := {
  databases : gmap string (gmap string Row);
  faults : list (option StoreError);
  console : list ConsoleLine
}.

Definition say (line : ConsoleLine) (w : World) : World :=
  {| databases := databases w; faults := faults w; console := console w ++ [line] |}.

(** [db.run(sql, params, callback)]: the next outcome decides; on
    success the statement rewrites the table of the database [db]. *)
Definition db_run (db : string) (statement : gmap string Row -> gmap string Row)
  (w : World) : option StoreError * World :=
  match faults w with
  | Some err :: later =>
      (Some err, {| databases := databases w; faults := later; console := console w |})
  | outcomes =>
      (None,
       {| databases := <[db := statement (default ∅ (databases w !! db))]> (databases w);
          faults := tail outcomes;
          console := console w |})
  end.

(** The outcome the environment holds for the next statement. *)
Definition nextOutcome (w : World) : option StoreError :=
  match faults w with
  | outcome :: _ => outcome
  | [] => None
  end.

(** Row [r] is stored under key [p] in the table of database [db]. *)
Definition stored (w : World) (db p : string) (r : Row) : Prop :=
  exists t, databases w !! db = Some t /\ t !! p = Some r.

(** Every stored row sits under its own [path]: the column is the key. *)
Definition keyed (w : World) : Prop :=
  forall db p r, stored w db p r -> path r = p.

(** [CREATE TABLE IF NOT EXISTS files (...)] *)
Definition create_table_if_not_exists (t : gmap string Row) : gmap string Row := t.

(** [INSERT OR REPLACE INTO files (all seven columns) VALUES (...)] *)
Definition insert_or_replace (r : Row) (t : gmap string Row) : gmap string Row :=
  <[path r := r]> t.

(** [DELETE FROM files WHERE path = ?] *)
Definition delete_where_path (p : string) (t : gmap string Row) : gmap string Row :=
  delete p t.

(** [SELECT path, hash, timestamp FROM files] *)
Definition select_path_hash_timestamp (t : gmap string Row) : list ManifestRow :=
  (fun kv => {| m_path := path kv.2; m_hash := hash kv.2; m_timestamp := timestamp kv.2 |})
    <$> map_to_list t.

Definition DB_FILE_NAME : string := "autopilot.db".

Section Db.

(** [path.join] of the host, [./autopilotConfig] and [./tokenHelper]. *)
Variable path_join : string -> string -> string.
Variable getCodeBaseAutopilotDirectory : string -> string.
Variable countTokens : string -> Z.

Definition createFilesTable (db : string) (w : World) : World :=
  let '(err, w) := db_run db create_table_if_not_exists w in
  match err with
  | Some e => say (TableCreateError e) w
  | None => say TableCreated w
  end.

Definition getDBFilePath (codeBaseDirectory : string) : string :=
  let codeBaseAutopilotDirectory := getCodeBaseAutopilotDirectory codeBaseDirectory in
  let dbFilePath := path_join codeBaseAutopilotDirectory DB_FILE_NAME in
  dbFilePath.

(** [getDB]: the connection is named by the database file. *)
Definition getDB (codeBaseDirectory : string) (w : World) : string * World :=
  let dbFilePath := getDBFilePath codeBaseDirectory in
  let db := dbFilePath in
  let w := say (Connected dbFilePath) w in
  let w := createFilesTable db w in
  (db, w).

Definition createDB (codeBaseDirectory : string) (w : World) : World :=
  let '(db, w) := getDB codeBaseDirectory w in
  createFilesTable db w.

Definition deleteFile (codeBaseDirectory filePath : string) (w : World)
  : result StoreError unit * World :=
  let '(db, w) := getDB codeBaseDirectory w in
  let '(err, w) := db_run db (delete_where_path filePath) w in
  match err with
  | Some e => (Ok tt, say (DeleteError e) w)
  | None => (Ok tt, say (FileDeleted filePath) w)
  end.

(** The row [insertOrUpdateFile] binds to the seven placeholders. *)
Definition boundRow (file : FileRecord) (summary dependenciesLibs : string) : Row :=
  let summaryTokensCount := countTokens summary in
  {| path := filePath file;
     tokensCount := fileTokensCount file;
     summary := summary;
     summaryTokensCount := summaryTokensCount;
     hash := fileHash file;
     timestamp := fileTimestamp file;
     dependenciesLibs := dependenciesLibs |}.

(** [insertOrUpdateFile]: it returns [undefined] before the callback
    runs, whatever the callback is told. *)
Definition insertOrUpdateFile (codeBaseDirectory : string) (file : FileRecord)
  (summary dependenciesLibs : string) (w : World) : result StoreError unit * World :=
  let '(db, w) := getDB codeBaseDirectory w in
  let '(err, w) := db_run db (insert_or_replace (boundRow file summary dependenciesLibs)) w in
  match err with
  | Some e => (Ok tt, say (UpsertError e) w)
  | None => (Ok tt, say (FileUpserted (filePath file)) w)
  end.

(** [getDBFiles]: the promise is rejected with the error of [db.all]. *)
Definition getDBFiles (codeBaseDirectory : string) (w : World)
  : result StoreError (list ManifestRow) * World :=
  let '(db, w) := getDB codeBaseDirectory w in
  match faults w with
  | Some err :: later =>
      (Throw err, {| databases := databases w; faults := later; console := console w |})
  | outcomes =>
      let files := select_path_hash_timestamp (default ∅ (databases w !! db)) in
      (Ok files,
       say (FilesRetrieved files)
         {| databases := databases w; faults := tail outcomes; console := console w |})
  end.

End Db.

(** ** The Reconciler *)

Inductive ChangeClass : Type := Added | Modified | Unchanged | Removed.

#[global] Instance ChangeClass_eq_dec : EqDecision ChangeClass.
Proof. solve_decision. Defined.

Record ChangeSet : Type := {
  added : list string;
  modified : list string;
  unchanged : list string;
  removed : list string
}.

(** Modelled from the spec: the Reconciler of section 4.4, which is in
    neither fsInput.js nor db.js.  The manifest projection is indexed by
    path; a live record whose path the index lacks is Added, one whose
    hash differs from the indexed hash is Modified, one whose hash is the
    same is Unchanged (the timestamp is not consulted); a manifest path
    that no live record has is Removed. *)
Definition manifestIndex (M : list ManifestRow) : gmap string string :=
  list_to_map ((fun m => (m_path m, m_hash m)) <$> M).

Definition classify (index : gmap string string) (r : FileRecord) : ChangeClass :=
  match index !! filePath r with
  | None => Added
  | Some h => if String.eqb h (fileHash r) then Unchanged else Modified
  end.

Definition livePaths (L : list FileRecord) : gset string :=
  list_to_set (filePath <$> L).

Definition reconcile (L : list FileRecord) (M : list ManifestRow) : ChangeSet :=
  let index := manifestIndex M in
  let live := livePaths L in
  {| added := filePath <$> filter (fun r => classify index r = Added) L;
     modified := filePath <$> filter (fun r => classify index r = Modified) L;
     unchanged := filePath <$> filter (fun r => classify index r = Unchanged) L;
     removed := m_path <$> filter (fun m => m_path m ∉ live) M |}.

Definition members (cs : ChangeSet) (c : ChangeClass) : list string :=
  match c with
  | Added => added cs
  | Modified => modified cs
  | Unchanged => unchanged cs
  | Removed => removed cs
  end.

(** ** A repository to run the code on *)

Module Sample.

Definition ignoreList : list string := ["node_modules"; "chart.js"].
Definition fileExtensionsToProcess : list string := [".js"].

(** Stand-ins for the tokenizer and the hash. *)
Definition countTokens (text : string) : Z := Z.of_nat (String.length text).
Definition hashFile (text : string) : string := String.append "h:" text.

Definition getCodeBaseAutopilotDirectory (dir : string) : string :=
  Posix.join dir ".autopilot".

Definition start : Progress := {| totalFiles := 0; completedFiles := 0 |}.

(** Two sources, a text file, an empty source, an ignored directory and
    a subdirectory. *)
Definition tree : node :=
  Dir 1
    [("a.js", File "x" 10);
     ("b.js", File "y" 20);
     ("notes.txt", File "n" 25);
     ("empty.js", File EmptyString 30);
     ("node_modules", Dir 2 [("c.js", File "z" 40)]);
     ("src", Dir 3 [("d.js", File "v" 60)])].

Definition repo : Filesystem := {| fs_root := "/repo"; fs_tree := tree |}.

(** An ignored directory whose name ends in an accepted extension. *)
Definition vendored : node :=
  Dir 1
    [("chart.js", Dir 2 [("inner.js", File "w" 50)]);
     ("main.js", File "y" 20)].

(** A directory that cannot be listed, two levels down. *)
Definition guarded : node :=
  Dir 1
    [("a.js", File "x" 10);
     ("src", Dir 3 [("private", SealedDir 4); ("d.js", File "v" 60)])].

(** A file whose name holds a backslash, as POSIX allows. *)
Definition odd : Filesystem :=
  {| fs_root := "/repo"; fs_tree := Dir 1 [("a\b.js", File "x" 10)] |}.

Definition windows : Filesystem :=
  {| fs_root := "C:\proj";
     fs_tree := Dir 1 [("src", Dir 2 [("a.js", File "x" 10)])] |}.

Definition known : gmap string JsValue :=
  <["filePath" := JsString "src/d.js"]> (<["exists" := JsBool true]> ∅).

Definition fresh : gmap string JsValue :=
  <["filePath" := JsString "src/new.js"]> (<["exists" := JsBool false]> ∅).

Definition aFile : FileRecord :=
  {| filePath := "a.js"; fileContent := "x"; fileTokensCount := 1;
     fileHash := "h:x"; fileTimestamp := 10 |}.

Definition aFileEdited : FileRecord :=
  {| filePath := "a.js"; fileContent := "z"; fileTokensCount := 1;
     fileHash := "h:z"; fileTimestamp := 11 |}.

Definition bFile : FileRecord :=
  {| filePath := "b.js"; fileContent := "y"; fileTokensCount := 1;
     fileHash := "h:y"; fileTimestamp := 20 |}.

Definition newFile : FileRecord :=
  {| filePath := "new.js"; fileContent := "q"; fileTokensCount := 1;
     fileHash := "h:q"; fileTimestamp := 70 |}.

Definition manifest : list ManifestRow :=
  [{| m_path := "a.js"; m_hash := "h:x"; m_timestamp := 10 |};
   {| m_path := "b.js"; m_hash := "h:y"; m_timestamp := 5 |};
   {| m_path := "old.js"; m_hash := "h:o"; m_timestamp := 1 |}].

Definition diskFull : StoreError :=
  {| store_code := "SQLITE_FULL"; store_message := "database or disk is full" |}.

(** A world with no database yet and no failure ahead, and one in
    which the second statement to come fails. *)
Definition healthy : World := {| databases := ∅; faults := []; console := [] |}.

Definition failing : World :=
  {| databases := ∅; faults := [None; Some diskFull]; console := [] |}.

End Sample.

(** ** The calls on the sample repository *)

Module Run.

Definition scan : string -> node -> Progress -> result FilesystemError (list string) * Progress :=
  getFilePaths (host := posix_host) Sample.ignoreList Sample.fileExtensionsToProcess.

Definition load : Filesystem -> string -> Progress ->
                  result FilesystemError (list FileRecord) * Progress :=
  loadFiles (host := posix_host) Sample.ignoreList Sample.fileExtensionsToProcess
    Sample.countTokens Sample.hashFile.

Definition connect : string -> World -> string * World :=
  getDB Posix.join Sample.getCodeBaseAutopilotDirectory.

Definition upsert : string -> FileRecord -> string -> string -> World ->
                    result StoreError unit * World :=
  insertOrUpdateFile Posix.join Sample.getCodeBaseAutopilotDirectory Sample.countTokens.

Definition remove : string -> string -> World -> result StoreError unit * World :=
  deleteFile Posix.join Sample.getCodeBaseAutopilotDirectory.

Definition create : string -> World -> World :=
  createDB Posix.join Sample.getCodeBaseAutopilotDirectory.

Definition listFiles : string -> World -> result StoreError (list ManifestRow) * World :=
  getDBFiles Posix.join Sample.getCodeBaseAutopilotDirectory.

Definition dbFile : string :=
  getDBFilePath Posix.join Sample.getCodeBaseAutopilotDirectory "/repo".

(** The repository with the ignored directory [chart.js]. *)
Definition vendoredRepo : Filesystem :=
  {| fs_root := "/repo"; fs_tree := Sample.vendored |}.

Definition aRow : Row :=
  {| path := "a.js"; tokensCount := 1; summary := "sums"; summaryTokensCount := 4;
     hash := "h:x"; timestamp := 10; dependenciesLibs := "fs" |}.

(** A world whose database holds the row of [a.js]; one in which the
    next statement but one fails. *)
Definition indexed : World :=
  {| databases := {[ "/repo/.autopilot/autopilot.db" := {[ "a.js" := aRow ]} ]};
     faults := [];
     console := [] |}.

Definition indexedFailing : World :=
  {| databases := {[ "/repo/.autopilot/autopilot.db" := {[ "a.js" := aRow ]} ]};
     faults := [None; Some Sample.diskFull];
     console := [] |}.

Definition bRow : Row :=
  {| path := "b.js"; tokensCount := 1; summary := "more"; summaryTokensCount := 4;
     hash := "h:y"; timestamp := 20; dependenciesLibs := "path" |}.

(** A world whose database holds the rows of [a.js] and [b.js]. *)
Definition indexedBoth : World :=
  {| databases :=
       {[ "/repo/.autopilot/autopilot.db" := <["b.js" := bRow]> {[ "a.js" := aRow ]} ]};
     faults := [];
     console := [] |}.

(** A file object for a file that is not there, and one with no path. *)
Definition missing : gmap string JsValue :=
  <["filePath" := JsString "gone.js"]> (<["exists" := JsBool true]> ∅).

Definition pathless : gmap string JsValue := <["exists" := JsBool false]> ∅.

End Run.

(** * Facts *)

(** ** Induction over a directory tree *)

Section NodeInduction.

Variable P : node -> Prop.
Hypothesis P_File : forall content m, P (File content m).
Hypothesis P_SealedFile : forall m, P (SealedFile m).
Hypothesis P_Dir : forall m files, Forall (fun e => P e.2) files -> P (Dir m files).
Hypothesis P_SealedDir : forall m, P (SealedDir m).
Hypothesis P_Vanished : P Vanished.

Fixpoint node_tree_ind (t : node) : P t :=
  match t with
  | File content m => P_File content m
  | SealedFile m => P_SealedFile m
  | Dir m files =>
      P_Dir m files
        ((fix all (files : list (string * node)) : Forall (fun e => P e.2) files :=
            match files with
            | [] => @List.Forall_nil _ _
            | e :: rest => @List.Forall_cons _ _ e rest (node_tree_ind e.2) (all rest)
            end) files)
  | SealedDir m => P_SealedDir m
  | Vanished => P_Vanished
  end.

End NodeInduction.

Lemma includes_In (arr : list string) (x : string) :
  Js.includes arr x = true <-> In x arr.
Proof.
  unfold Js.includes. rewrite existsb_exists. split.
  - intros (y & Hy & Heq). apply String.eqb_eq in Heq. now subst.
  - intros Hx. exists x. split; [assumption | apply String.eqb_refl].
Qed.

Section ScannerFacts.

Context {host : HostPath}.
Variable ignoreList : list string.
Variable fileExtensionsToProcess : list string.

Local Abbreviation scan := (getFilePaths ignoreList fileExtensionsToProcess).
Local Abbreviation scanIn := (scanEntries ignoreList fileExtensionsToProcess).

(** [getFilePaths] lists the directory and runs the loop on the listing. *)
Lemma getFilePaths_unfold dir t st :
  scan dir t st =
  match readdirSync dir t with
  | Throw e => (Throw e, st)
  | Ok files => scanIn dir files [] st
  end.
Proof.
  destruct t as [c m | m | m files | m | ]; try reflexivity.
  cbn [getFilePaths readdirSync].
  match goal with
  | |- ?each files [] st = _ =>
      enough (forall acc st', each files acc st' = scanIn dir files acc st') as Hloop
        by apply Hloop
  end.
  induction files as [| [file child] rest IH]; intros acc st'; [reflexivity |].
  cbn [scanEntries]. cbv zeta.
  destruct (statSync (Posix.join dir file) child) as [stats | e]; [| reflexivity].
  destruct (isDirectory stats && negb (Js.includes ignoreList file)).
  - destruct (scan (Posix.join dir file) child st') as [[found | e] st'']; [apply IH | reflexivity].
  - destruct (Js.includes fileExtensionsToProcess (path_extname (Posix.join dir file))); apply IH.
Qed.

(** *** Only accepted extensions are returned *)

Local Abbreviation accepted :=
  (fun p : string => Js.includes fileExtensionsToProcess (path_extname p) = true).

Lemma scanEntries_accepted files :
  Forall (fun e => forall dir st paths st',
            scan dir e.2 st = (Ok paths, st') -> Forall accepted paths) files ->
  forall dir acc st paths st',
    Forall accepted acc ->
    scanIn dir files acc st = (Ok paths, st') ->
    Forall accepted paths.
Proof.
  induction 1 as [| [file child] rest Hchild _ IH]; intros dir acc st paths st' Hacc Hrun.
  - cbn in Hrun. injection Hrun as <- _. exact Hacc.
  - cbn [scanEntries] in Hrun. cbv zeta in Hrun.
    destruct (statSync (Posix.join dir file) child) as [stats | e]; [| discriminate].
    destruct (isDirectory stats && negb (Js.includes ignoreList file)).
    + destruct (scan (Posix.join dir file) child st) as [[found | e] st1] eqn:Hsub;
        [| discriminate].
      apply (IH dir (acc ++ found) st1 paths st'); [| exact Hrun].
      apply Forall_app. split; [exact Hacc | exact (Hchild _ _ _ _ Hsub)].
    + destruct (Js.includes fileExtensionsToProcess (path_extname (Posix.join dir file)))
        eqn:Hext.
      * apply (IH dir (acc ++ [Posix.join dir file]) st paths st'); [| exact Hrun].
        apply Forall_app. split; [exact Hacc |]. constructor; [exact Hext | constructor].
      * exact (IH dir acc st paths st' Hacc Hrun).
Qed.

Lemma getFilePaths_accepted t :
  forall dir st paths st',
    scan dir t st = (Ok paths, st') -> Forall accepted paths.
Proof.
  induction t as [c m | m | m files IH | m | ] using node_tree_ind;
    intros dir st paths st' Hrun; rewrite getFilePaths_unfold in Hrun;
    cbn [readdirSync] in Hrun; try discriminate.
  eapply scanEntries_accepted; [exact IH | constructor | exact Hrun].
Qed.

(** C8. Extension filtering: whatever the tree and the lists, a path
    whose extension is not among the accepted extensions is not in the
    list that [getFilePaths] returns. *)
Theorem extension_filtering dir t st paths p :
  fst (scan dir t st) = Ok paths ->
  ~ In (path_extname p) fileExtensionsToProcess ->
  ~ In p paths.
Proof.
  intros Hrun Hext Hin.
  destruct (scan dir t st) as [r st'] eqn:Hscan. cbn in Hrun. subst r.
  pose proof (getFilePaths_accepted t dir st paths st' Hscan) as Hall.
  rewrite List.Forall_forall in Hall.
  apply Hext, includes_In, Hall, Hin.
Qed.

(** *** A failing [stat] or [readdir] aborts the scan *)

Lemma statSync_isDirectory p n stats :
  statSync p n = Ok stats -> isDirectory stats = isDir n.
Proof. destruct n; cbn; intros H; inversion H; reflexivity. Qed.

Lemma scanEntries_throw files :
  Forall (fun x => forall dir st e st',
            scan dir x.2 st = (Throw e, st') -> offending ignoreList dir x.2 e) files ->
  forall dir m files0 acc st e st',
    incl files files0 ->
    scanIn dir files acc st = (Throw e, st') ->
    offending ignoreList dir (Dir m files0) e.
Proof.
  induction 1 as [| [file child] rest Hchild _ IH];
    intros dir m files0 acc st e st' Hincl Hrun; [discriminate |].
  assert (Hin : In (file, child) files0) by (apply Hincl; left; reflexivity).
  assert (Hrest : incl rest files0) by (intros x Hx; apply Hincl; right; exact Hx).
  cbn [scanEntries] in Hrun. cbv zeta in Hrun.
  destruct (statSync (Posix.join dir file) child) as [stats | e0] eqn:Hstat.
  - pose proof (statSync_isDirectory _ _ _ Hstat) as Hdir.
    destruct (isDirectory stats && negb (Js.includes ignoreList file)) eqn:Hgo.
    + apply andb_true_iff in Hgo as [Hd Hign]. apply negb_true_iff in Hign.
      rewrite Hdir in Hd.
      destruct (scan (Posix.join dir file) child st) as [[found | e1] st1] eqn:Hsub.
      * exact (IH dir m files0 _ _ _ _ Hrest Hrun).
      * injection Hrun as -> _.
        destruct (Hchild _ _ _ _ Hsub) as (a & n & Henc & Hfail).
        exists a, n. split; [| exact Hfail].
        exact (enc_below _ _ _ _ _ _ _ _ _ Hin Hd Hign Henc).
    + destruct (Js.includes fileExtensionsToProcess (path_extname (Posix.join dir file)));
        exact (IH dir m files0 _ _ _ _ Hrest Hrun).
  - injection Hrun as -> _.
    assert (Hpath : err_path e = Posix.join dir file)
      by (destruct child; cbn in Hstat; inversion Hstat; reflexivity).
    exists ByStat, child. rewrite Hpath. split.
    + exact (enc_entry _ _ _ _ _ _ Hin).
    + cbn. rewrite Hstat. reflexivity.
Qed.

Lemma getFilePaths_throw t :
  forall dir st e st', scan dir t st = (Throw e, st') -> offending ignoreList dir t e.
Proof.
  induction t as [c m | m | m files IH | m | ] using node_tree_ind;
    intros dir st e st' Hrun; rewrite getFilePaths_unfold in Hrun;
    cbn [readdirSync] in Hrun;
    try (injection Hrun as <- _; exists ByScandir; eexists; split;
         [apply enc_root | reflexivity]).
  eapply scanEntries_throw; [exact IH | apply incl_refl | exact Hrun].
Qed.

Lemma scanEntries_ok files :
  Forall (fun x => forall dir st paths st',
            scan dir x.2 st = (Ok paths, st') -> unfailing ignoreList dir x.2) files ->
  forall dir acc st paths st',
    scanIn dir files acc st = (Ok paths, st') ->
    forall file child, In (file, child) files ->
      attempt ByStat (Posix.join dir file) child = None /\
      (isDir child = true -> Js.includes ignoreList file = false ->
       unfailing ignoreList (Posix.join dir file) child).
Proof.
  induction 1 as [| [file0 child0] rest Hchild _ IH];
    intros dir acc st paths st' Hrun file child Hin; [destruct Hin |].
  cbn [scanEntries] in Hrun. cbv zeta in Hrun.
  destruct (statSync (Posix.join dir file0) child0) as [stats | e0] eqn:Hstat;
    [| discriminate].
  pose proof (statSync_isDirectory _ _ _ Hstat) as Hdir.
  destruct (isDirectory stats && negb (Js.includes ignoreList file0)) eqn:Hgo.
  - destruct (scan (Posix.join dir file0) child0 st) as [[found | e1] st1] eqn:Hsub;
      [| discriminate].
    destruct Hin as [Heq | Hin]; [| exact (IH _ _ _ _ _ Hrun _ _ Hin)].
    injection Heq as <- <-. split.
    + cbn. rewrite Hstat. reflexivity.
    + intros _ _. exact (Hchild _ _ _ _ Hsub).
  - assert (Hrest : forall f c, In (f, c) rest ->
              attempt ByStat (Posix.join dir f) c = None /\
              (isDir c = true -> Js.includes ignoreList f = false ->
               unfailing ignoreList (Posix.join dir f) c)).
    { destruct (Js.includes fileExtensionsToProcess (path_extname (Posix.join dir file0)));
        exact (IH _ _ _ _ _ Hrun). }
    destruct Hin as [Heq | Hin]; [| exact (Hrest _ _ Hin)].
    injection Heq as <- <-. split.
    + cbn. rewrite Hstat. reflexivity.
    + intros Hd Hign. rewrite Hdir, Hd, Hign in Hgo. discriminate.
Qed.

Lemma getFilePaths_ok t :
  forall dir st paths st', scan dir t st = (Ok paths, st') -> unfailing ignoreList dir t.
Proof.
  induction t as [c m | m | m files IH | m | ] using node_tree_ind;
    intros dir st paths st' Hrun; rewrite getFilePaths_unfold in Hrun;
    cbn [readdirSync] in Hrun; try discriminate.
  pose proof (scanEntries_ok files IH dir [] st paths st' Hrun) as Hentries.
  intros a p n Henc. inversion Henc; subst.
  - reflexivity.
  - match goal with H : In _ files |- _ => exact (proj1 (Hentries _ _ H)) end.
  - match goal with
    | Hin : In (?f, ?c) files, Hd : isDir ?c = true, Hi : Js.includes _ ?f = false,
      Hsub : encounters _ _ ?c _ _ _ |- _ =>
        exact (proj2 (Hentries _ _ Hin) Hd Hi _ _ _ Hsub)
    end.
Qed.

(** C5. Scanner failure propagation: if a path the scan encounters
    cannot be statted or listed, [getFilePaths] throws instead of
    returning a list, and the error it throws is the error of a path
    that the scan encountered and that fails, carrying that path. *)
Theorem scan_failure_propagates dir t st a p n :
  encounters ignoreList dir t a p n ->
  attempt a p n <> None ->
  exists e,
    fst (scan dir t st) = Throw e /\
    exists a' n',
      encounters ignoreList dir t a' (err_path e) n' /\
      attempt a' (err_path e) n' = Some e.
Proof.
  intros Henc Hfail.
  destruct (scan dir t st) as [[paths | e] st'] eqn:Hrun.
  - exfalso. apply Hfail. exact (getFilePaths_ok t dir st paths st' Hrun a p n Henc).
  - exists e. split; [reflexivity |]. exact (getFilePaths_throw t dir st e st' Hrun).
Qed.

(** *** What lies in an ignored directory is never looked at *)

Lemma prune_Dir m files :
  prune ignoreList (Dir m files) =
  Dir m (List.map (fun e : string * node =>
           (e.1, if Js.includes ignoreList e.1 then emptied e.2
                 else prune ignoreList e.2)) files).
Proof.
  cbn [prune]. f_equal.
  induction files as [| [file child] rest IH]; [reflexivity |].
  cbn [List.map fst snd]. f_equal. exact IH.
Qed.

Lemma statSync_prune p n : statSync p (prune ignoreList n) = statSync p n.
Proof. destruct n; reflexivity. Qed.

(** X2. The scan never looks inside an ignored directory: with every
    ignored directory emptied, at any depth, [getFilePaths] gives the
    same result and the same counters. *)
Lemma getFilePaths_prune t :
  forall dir st, scan dir (prune ignoreList t) st = scan dir t st.
Proof.
  induction t as [c m | m | m files IH | m | ] using node_tree_ind;
    intros dir st; try reflexivity.
  rewrite prune_Dir, !getFilePaths_unfold. cbn [readdirSync].
  generalize (@nil string) as acc. revert st.
  induction IH as [| [file child] rest Hchild _ IHrest]; intros st acc; [reflexivity |].
  cbn [List.map scanEntries fst snd]. cbv zeta.
  destruct (Js.includes ignoreList file) eqn:Hign.
  - replace (statSync (Posix.join dir file) (emptied child))
      with (statSync (Posix.join dir file) child) by (destruct child; reflexivity).
    destruct (statSync (Posix.join dir file) child) as [stats | e]; [| reflexivity].
    rewrite andb_false_r.
    destruct (Js.includes fileExtensionsToProcess (path_extname (Posix.join dir file)));
      apply IHrest.
  - rewrite statSync_prune.
    destruct (statSync (Posix.join dir file) child) as [stats | e]; [| reflexivity].
    destruct (isDirectory stats && negb false).
    + cbn [snd] in Hchild. rewrite Hchild.
      destruct (scan (Posix.join dir file) child st) as [[found | e] st1];
        [apply IHrest | reflexivity].
    + destruct (Js.includes fileExtensionsToProcess (path_extname (Posix.join dir file)));
        apply IHrest.
Qed.

(** *** What a scan returns *)

(** The paths the scan keeps: a scanned entry that is not a directory,
    or is an ignored one, and whose path has an accepted extension. *)
Local Abbreviation kept dir t p :=
  (exists name n,
     scannedEntry ignoreList dir t p name n /\
     (isDir n = false \/ Js.includes ignoreList name = true) /\
     Js.includes fileExtensionsToProcess (path_extname p) = true).

Lemma scanEntries_kept files :
  Forall (fun x => forall dir st paths st',
            scan dir x.2 st = (Ok paths, st') ->
            forall p, In p paths <-> kept dir x.2 p) files ->
  forall dir acc st paths st',
    scanIn dir files acc st = (Ok paths, st') ->
    forall p,
      In p paths <->
      In p acc \/
      exists file child,
        In (file, child) files /\
        ((isDir child = true /\ Js.includes ignoreList file = false /\
          kept (Posix.join dir file) child p) \/
         ((isDir child = false \/ Js.includes ignoreList file = true) /\
          p = Posix.join dir file /\
          Js.includes fileExtensionsToProcess (path_extname p) = true)).
Proof.
  induction 1 as [| [file child] rest Hchild _ IH]; intros dir acc st paths st' Hrun p.
  - cbn in Hrun. injection Hrun as <- _. split; [auto |].
    intros [Hp | (f & c & [] & _)]. exact Hp.
  - cbn [scanEntries] in Hrun. cbv zeta in Hrun.
    destruct (statSync (Posix.join dir file) child) as [stats | e] eqn:Hstat;
      [| discriminate].
    pose proof (statSync_isDirectory _ _ _ Hstat) as Hdir.
    destruct (isDirectory stats && negb (Js.includes ignoreList file)) eqn:Hgo.
    + apply andb_true_iff in Hgo as [Hd Hign]. apply negb_true_iff in Hign.
      rewrite Hdir in Hd.
      destruct (scan (Posix.join dir file) child st) as [[found | e] st1] eqn:Hsub;
        [| discriminate].
      cbn [snd] in Hchild. rewrite (IH _ _ _ _ _ Hrun p), in_app_iff.
      rewrite (Hchild _ _ _ _ Hsub p). split.
      * intros [[Hp | Hp] | (f & c & Hin & Hc)].
        -- left. exact Hp.
        -- right. exists file, child. split; [left; reflexivity |]. left. auto.
        -- right. exists f, c. split; [right; exact Hin | exact Hc].
      * intros [Hp | (f & c & [Heq | Hin] & Hc)].
        -- left. left. exact Hp.
        -- injection Heq as <- <-. destruct Hc as [(_ & _ & Hk) | ([Hnd | Hi] & _)].
           ++ left. right. exact Hk.
           ++ congruence.
           ++ congruence.
        -- right. exists f, c. auto.
    + assert (Hskip : isDir child = false \/ Js.includes ignoreList file = true).
      { rewrite Hdir in Hgo. apply andb_false_iff in Hgo as [Hd | Hi]; [left; exact Hd |].
        right. apply negb_false_iff in Hi. exact Hi. }
      destruct (Js.includes fileExtensionsToProcess (path_extname (Posix.join dir file)))
        eqn:Hext.
      * rewrite (IH _ _ _ _ _ Hrun p), in_app_iff. split.
        -- intros [[Hp | [<- | []]] | (f & c & Hin & Hc)].
           ++ left. exact Hp.
           ++ right. exists file, child. split; [left; reflexivity |]. right. auto.
           ++ right. exists f, c. split; [right; exact Hin | exact Hc].
        -- intros [Hp | (f & c & [Heq | Hin] & Hc)].
           ++ left. left. exact Hp.
           ++ injection Heq as <- <-. destruct Hc as [(Hd & Hi & _) | (_ & -> & _)].
              ** destruct Hskip; congruence.
              ** left. right. left. reflexivity.
           ++ right. exists f, c. auto.
      * rewrite (IH _ _ _ _ _ Hrun p). split.
        -- intros [Hp | (f & c & Hin & Hc)]; [left; exact Hp |].
           right. exists f, c. split; [right; exact Hin | exact Hc].
        -- intros [Hp | (f & c & [Heq | Hin] & Hc)].
           ++ left. exact Hp.
           ++ injection Heq as <- <-. destruct Hc as [(Hd & Hi & _) | (_ & -> & Hacc)].
              ** destruct Hskip; congruence.
              ** congruence.
           ++ right. exists f, c. auto.
Qed.

Lemma getFilePaths_kept t :
  forall dir st paths st',
    scan dir t st = (Ok paths, st') -> forall p, In p paths <-> kept dir t p.
Proof.
  induction t as [c m | m | m files IH | m | ] using node_tree_ind;
    intros dir st paths st' Hrun p; rewrite getFilePaths_unfold in Hrun;
    cbn [readdirSync] in Hrun; try discriminate.
  rewrite (scanEntries_kept files IH dir [] st paths st' Hrun p). split.
  - intros [[] | (file & child & Hin & [(Hd & Hi & name & n & Hentry & Hn & Hext) |
                                          (Hskip & -> & Hext)])].
    + exists name, n. split; [| auto].
      exact (entry_below _ _ _ _ _ _ _ _ _ Hin Hd Hi Hentry).
    + exists file, child. split; [| auto]. exact (entry_here _ _ _ _ _ _ Hin).
  - intros (name & n & Hentry & Hn & Hext). right. inversion Hentry; subst.
    + exists name, n. split; [assumption |]. right. auto.
    + match goal with
      | Hin : In (?f, ?c) files |- _ => exists f, c; split; [exact Hin |]
      end.
      left. split; [assumption |]. split; [assumption |]. exists name, n. auto.
Qed.

(** X1. What a scan returns: when [getFilePaths] returns, a path is in
    its list exactly when it is the path of a scanned entry that is not a
    directory, or is a directory of the ignore list, and whose extension
    is accepted. *)
Theorem scan_returns_exactly dir t st paths p :
  fst (scan dir t st) = Ok paths ->
  (In p paths <->
   exists name n,
     scannedEntry ignoreList dir t p name n /\
     (isDir n = false \/ Js.includes ignoreList name = true) /\
     Js.includes fileExtensionsToProcess (path_extname p) = true).
Proof.
  intros Hrun. destruct (scan dir t st) as [r st'] eqn:Hscan. cbn in Hrun. subst r.
  exact (getFilePaths_kept t dir st paths st' Hscan p).
Qed.

(** *** The counters

    A scan leaves [completedFiles] alone and raises [totalFiles] by at
    least the number of paths it returns. *)

Local Abbreviation counted st r st' :=
  (completedFiles st' = completedFiles st /\
   totalFiles st <= totalFiles st' /\
   forall paths : list string,
     r = Ok (E := FilesystemError) paths -> totalFiles st + length paths <= totalFiles st').

Lemma scanEntries_counted files :
  Forall (fun x => forall dir st r st', scan dir x.2 st = (r, st') -> counted st r st') files ->
  forall dir acc st r st', scanIn dir files acc st = (r, st') -> counted st r st'.
Proof.
  induction 1 as [| [file child] rest Hchild _ IH]; intros dir acc st r st' Hrun.
  - cbn in Hrun. injection Hrun as <- <-. cbn. repeat split; try lia.
    intros paths Heq. injection Heq as <-. lia.
  - cbn [scanEntries] in Hrun. cbv zeta in Hrun.
    destruct (statSync (Posix.join dir file) child) as [stats | e].
    + destruct (isDirectory stats && negb (Js.includes ignoreList file)).
      * destruct (scan (Posix.join dir file) child st) as [[found | e] st1] eqn:Hsub.
        -- destruct (Hchild _ _ _ _ Hsub) as (Hc1 & Ht1 & _).
           destruct (IH _ _ _ _ _ Hrun) as (Hc2 & Ht2 & Hlen).
           repeat split; try lia. intros paths Heq. specialize (Hlen paths Heq). lia.
        -- injection Hrun as <- <-. destruct (Hchild _ _ _ _ Hsub) as (Hc1 & Ht1 & _).
           repeat split; try lia. discriminate.
      * destruct (Js.includes fileExtensionsToProcess (path_extname (Posix.join dir file)));
          exact (IH _ _ _ _ _ Hrun).
    + injection Hrun as <- <-. repeat split; try lia. discriminate.
Qed.

Lemma getFilePaths_counted t :
  forall dir st r st', scan dir t st = (r, st') -> counted st r st'.
Proof.
  induction t as [c m | m | m files IH | m | ] using node_tree_ind;
    intros dir st r st' Hrun; rewrite getFilePaths_unfold in Hrun;
    cbn [readdirSync] in Hrun;
    try (injection Hrun as <- <-; repeat split; try lia; discriminate).
  exact (scanEntries_counted files IH dir [] st r st' Hrun).
Qed.

(** *** Listing order *)

Local Abbreviation prefixed acc r :=
  (match r with
   | Ok paths => Ok (E := FilesystemError) (acc ++ paths : list string)
   | Throw e => Throw e
   end).

Lemma scanEntries_any_counters files :
  Forall (fun x => forall dir st1 st2, (scan dir x.2 st1).1 = (scan dir x.2 st2).1) files ->
  forall dir acc st1 st2, (scanIn dir files acc st1).1 = (scanIn dir files acc st2).1.
Proof.
  induction 1 as [| [file child] rest Hchild _ IH]; intros dir acc st1 st2; [reflexivity |].
  cbn [scanEntries]. cbv zeta.
  destruct (statSync (Posix.join dir file) child) as [stats | e]; [| reflexivity].
  destruct (isDirectory stats && negb (Js.includes ignoreList file)).
  - cbn [snd] in Hchild. pose proof (Hchild (Posix.join dir file) st1 st2) as Hsame.
    destruct (scan (Posix.join dir file) child st1) as [[found1 | e1] st1'],
             (scan (Posix.join dir file) child st2) as [[found2 | e2] st2'];
      cbn in Hsame; try discriminate.
    + injection Hsame as <-. apply IH.
    + exact Hsame.
  - destruct (Js.includes fileExtensionsToProcess (path_extname (Posix.join dir file)));
      apply IH.
Qed.

Lemma getFilePaths_any_counters t :
  forall dir st1 st2, (scan dir t st1).1 = (scan dir t st2).1.
Proof.
  induction t as [c m | m | m files IH | m | ] using node_tree_ind;
    intros dir st1 st2; rewrite !getFilePaths_unfold; cbn [readdirSync];
    try reflexivity.
  exact (scanEntries_any_counters files IH dir [] st1 st2).
Qed.

Lemma scanEntries_prefixed dir files :
  forall acc st, (scanIn dir files acc st).1 = prefixed acc (scanIn dir files [] st).1.
Proof.
  induction files as [| [file child] rest IH]; intros acc st.
  - cbn. rewrite app_nil_r. reflexivity.
  - cbn [scanEntries]. cbv zeta.
    destruct (statSync (Posix.join dir file) child) as [stats | e]; [| reflexivity].
    destruct (isDirectory stats && negb (Js.includes ignoreList file)).
    + destruct (scan (Posix.join dir file) child st) as [[found | e] st1]; [| reflexivity].
      rewrite (IH (acc ++ found) st1), (IH ([] ++ found) st1).
      destruct (scanIn dir rest [] st1).1; [| reflexivity].
      cbn [app]. rewrite app_assoc. reflexivity.
    + destruct (Js.includes fileExtensionsToProcess (path_extname (Posix.join dir file))).
      * rewrite (IH (acc ++ [Posix.join dir file]) st), (IH ([] ++ [Posix.join dir file]) st).
        destruct (scanIn dir rest [] st).1; [| reflexivity].
        cbn [app]. rewrite <- app_assoc. reflexivity.
      * apply IH.
Qed.

Lemma scanEntries_app dir first second :
  forall acc st,
    (scanIn dir (first ++ second) acc st).1 =
    match (scanIn dir first acc st).1 with
    | Ok paths => (scanIn dir second paths st).1
    | Throw e => Throw e
    end.
Proof.
  assert (Hany : forall files acc st1 st2,
            (scanIn dir files acc st1).1 = (scanIn dir files acc st2).1).
  { intros files. apply scanEntries_any_counters.
    apply List.Forall_forall. intros x _. apply getFilePaths_any_counters. }
  induction first as [| [file child] rest IH]; intros acc st.
  - cbn [app scanEntries fst]. apply Hany.
  - cbn [app scanEntries]. cbv zeta.
    destruct (statSync (Posix.join dir file) child) as [stats | e]; [| reflexivity].
    destruct (isDirectory stats && negb (Js.includes ignoreList file)).
    + destruct (scan (Posix.join dir file) child st) as [[found | e] st1]; [| reflexivity].
      rewrite IH. destruct (scanIn dir rest (acc ++ found) st1).1; [apply Hany | reflexivity].
    + destruct (Js.includes fileExtensionsToProcess (path_extname (Posix.join dir file)));
        apply IH.
Qed.

(** X3. Listing order: the scan of a directory whose listing is one
    listing followed by another returns what the scan of the first
    returns followed by what the scan of the second returns; when the
    first fails its error is thrown, and otherwise the error of the
    second. *)
Theorem scan_in_listing_order dir m m1 m2 first second st :
  (scan dir (Dir m (first ++ second)) st).1 =
  match (scan dir (Dir m1 first) st).1, (scan dir (Dir m2 second) st).1 with
  | Ok paths1, Ok paths2 => Ok (paths1 ++ paths2)
  | Ok _, Throw e => Throw e
  | Throw e, _ => Throw e
  end.
Proof.
  rewrite !getFilePaths_unfold. cbn [readdirSync].
  rewrite scanEntries_app.
  destruct (scanIn dir first [] st).1 as [paths1 | e]; [| reflexivity].
  rewrite scanEntries_prefixed.
  destruct (scanIn dir second [] st).1; reflexivity.
Qed.

End ScannerFacts.

(** ** Backslashes *)

Lemma replace_backslashes_app a b :
  Js.replace_backslashes (String.append a b) =
  String.append (Js.replace_backslashes a) (Js.replace_backslashes b).
Proof.
  induction a as [| c a IH]; [reflexivity |].
  change (String.append (String c a) b) with (String c (String.append a b)).
  cbn [Js.replace_backslashes]. rewrite IH. reflexivity.
Qed.

Lemma replace_backslashes_clean s :
  Js.has_char Js.backslash (Js.replace_backslashes s) = false.
Proof.
  induction s as [| c s IH]; cbn; [reflexivity |].
  rewrite IH, orb_false_r.
  destruct (Ascii.eqb c Js.backslash) eqn:Hc; [reflexivity | exact Hc].
Qed.

Lemma replace_backslashes_id s :
  Js.has_char Js.backslash s = false -> Js.replace_backslashes s = s.
Proof.
  induction s as [| c s IH]; cbn; [reflexivity |].
  intros H. apply orb_false_iff in H as [Hc Hs].
  rewrite Hc, (IH Hs). reflexivity.
Qed.

Lemma replace_backslashes_join sep segs :
  sep = "/" \/ sep = "\" ->
  Forall (fun seg => Js.has_char Js.backslash seg = false) segs ->
  Js.replace_backslashes (Js.join sep segs) = Js.join "/" segs.
Proof.
  intros Hsep Hsegs. unfold Js.join.
  induction Hsegs as [| seg rest Hseg Hrest IH]; [reflexivity |].
  destruct rest as [| next rest].
  - cbn. exact (replace_backslashes_id _ Hseg).
  - cbn [String.concat] in *.
    rewrite !replace_backslashes_app, IH, (replace_backslashes_id _ Hseg).
    destruct Hsep as [-> | ->]; reflexivity.
Qed.

(** ** Paths below a root

    What [path.posix.join] builds from a directory and a name leads,
    once resolved, to where the directory leads followed by the name. *)

Lemma split_nonempty c s : Js.split c s <> [].
Proof.
  destruct s as [| a s]; cbn; [discriminate |].
  destruct (Ascii.eqb a c); [discriminate |]. destruct (Js.split c s); discriminate.
Qed.

Lemma split_app c a b :
  Js.split c (String.append a (String c b)) = Js.split c a ++ Js.split c b.
Proof.
  induction a as [| x a IH].
  - change (String.append EmptyString (String c b)) with (String c b).
    cbn [Js.split app]. rewrite Ascii.eqb_refl. reflexivity.
  - change (String.append (String x a) (String c b))
      with (String x (String.append a (String c b))).
    cbn [Js.split]. rewrite IH. destruct (Ascii.eqb x c); [reflexivity |].
    pose proof (split_nonempty c a) as Hne.
    destruct (Js.split c a) as [| piece pieces]; [contradiction | reflexivity].
Qed.

Lemma split_plain c s : Js.has_char c s = false -> Js.split c s = [s].
Proof.
  induction s as [| a s IH]; cbn; [reflexivity |].
  intros H. apply orb_false_iff in H as [Ha Hs]. rewrite Ha, (IH Hs). reflexivity.
Qed.

Lemma split_pieces_plain c s : Forall (fun piece => Js.has_char c piece = false) (Js.split c s).
Proof.
  induction s as [| a s IH]; cbn; [repeat constructor |].
  destruct (Ascii.eqb a c) eqn:Ha; [constructor; [reflexivity | exact IH] |].
  destruct (Js.split c s) as [| piece pieces]; [repeat constructor; cbn; now rewrite Ha |].
  apply Forall_cons in IH as [Hpiece Hpieces].
  constructor; [| exact Hpieces]. cbn. rewrite Ha, Hpiece. reflexivity.
Qed.

Lemma split_join_plain c segs :
  segs <> [] ->
  Forall (fun seg => Js.has_char c seg = false) segs ->
  Js.split c (Js.join (String c EmptyString) segs) = segs.
Proof.
  intros Hne Hsegs. unfold Js.join.
  induction Hsegs as [| seg rest Hseg Hrest IH]; [contradiction |].
  destruct rest as [| next rest].
  - cbn. exact (split_plain _ _ Hseg).
  - change (String.concat (String c EmptyString) (seg :: next :: rest))
      with (String.append seg
              (String.append (String c EmptyString)
                 (String.concat (String c EmptyString) (next :: rest)))).
    change (String.append (String c EmptyString) (String.concat (String c EmptyString)
              (next :: rest)))
      with (String c (String.concat (String c EmptyString) (next :: rest))).
    rewrite split_app, (split_plain _ _ Hseg), IH by discriminate. reflexivity.
Qed.

Lemma normalizeSegments_app allow first second :
  forall acc,
    Posix.normalizeSegments allow (first ++ second) acc =
    Posix.normalizeSegments allow second (rev (Posix.normalizeSegments allow first acc)).
Proof.
  induction first as [| seg rest IH]; intros acc.
  - cbn. rewrite rev_involutive. reflexivity.
  - cbn [app Posix.normalizeSegments].
    destruct (String.eqb seg EmptyString || String.eqb seg "."); [apply IH |].
    destruct (String.eqb seg ".."); [| apply IH].
    destruct acc as [| last before].
    + destruct allow; apply IH.
    + destruct (negb (String.eqb last "..")); [apply IH |]. destruct allow; apply IH.
Qed.

Lemma normalizeSegments_name allow name acc :
  name <> EmptyString -> name <> "." -> name <> ".." ->
  Posix.normalizeSegments allow [name] acc = rev acc ++ [name].
Proof.
  intros H0 H1 H2. cbn.
  apply String.eqb_neq in H0, H1, H2. rewrite H0, H1, H2. reflexivity.
Qed.

Lemma normalizeSegments_dropped allow seg acc :
  seg = EmptyString \/ seg = "." ->
  Posix.normalizeSegments allow [seg] acc = rev acc.
Proof. intros [-> | ->]; reflexivity. Qed.

(** Segments that normalizing leaves are not empty and not [.]; when
    climbing above the root is not allowed, they are not [..] either. *)
Lemma normalizeSegments_kept allow segs :
  forall acc,
    Forall (fun seg => seg <> EmptyString /\ seg <> ".") acc ->
    Forall (fun seg => seg <> EmptyString /\ seg <> ".")
      (Posix.normalizeSegments allow segs acc).
Proof.
  induction segs as [| seg rest IH]; intros acc Hacc.
  - cbn. apply Forall_rev. exact Hacc.
  - cbn [Posix.normalizeSegments].
    destruct (String.eqb seg EmptyString || String.eqb seg ".") eqn:Hdrop; [exact (IH _ Hacc) |].
    apply orb_false_iff in Hdrop as [H0 H1]. apply String.eqb_neq in H0, H1.
    assert (Hpush : Forall (fun x => x <> EmptyString /\ x <> ".") (seg :: acc))
      by (constructor; [split; assumption | exact Hacc]).
    destruct (String.eqb seg ".."); [| exact (IH _ Hpush)].
    destruct acc as [| last before].
    + destruct allow; [exact (IH _ Hpush) | exact (IH _ Hacc)].
    + destruct (negb (String.eqb last "..")).
      * apply IH. apply Forall_cons in Hacc as [_ Hbefore]. exact Hbefore.
      * destruct allow; [exact (IH _ Hpush) | exact (IH _ Hacc)].
Qed.

Lemma normalizeSegments_grounded segs :
  forall acc,
    Forall (fun seg => seg <> "..") acc ->
    Forall (fun seg => seg <> "..") (Posix.normalizeSegments false segs acc).
Proof.
  induction segs as [| seg rest IH]; intros acc Hacc.
  - cbn. apply Forall_rev. exact Hacc.
  - cbn [Posix.normalizeSegments].
    destruct (String.eqb seg EmptyString || String.eqb seg "."); [exact (IH _ Hacc) |].
    destruct (String.eqb seg "..") eqn:Hup.
    + destruct acc as [| last before]; [exact (IH _ Hacc) |].
      destruct (negb (String.eqb last "..")); [| exact (IH _ Hacc)].
      apply IH. apply Forall_cons in Hacc as [_ Hbefore]. exact Hbefore.
    + apply IH. constructor; [| exact Hacc]. apply String.eqb_neq. exact Hup.
Qed.

Lemma normalizeSegments_within (P : string -> Prop) allow segs :
  forall acc,
    Forall P segs -> Forall P acc -> Forall P (Posix.normalizeSegments allow segs acc).
Proof.
  induction segs as [| seg rest IH]; intros acc Hsegs Hacc.
  - cbn. apply Forall_rev. exact Hacc.
  - apply Forall_cons in Hsegs as [Hseg Hrest]. cbn [Posix.normalizeSegments].
    assert (Hpush : Forall P (seg :: acc)) by (constructor; assumption).
    destruct (String.eqb seg EmptyString || String.eqb seg "."); [exact (IH _ Hrest Hacc) |].
    destruct (String.eqb seg ".."); [| exact (IH _ Hrest Hpush)].
    destruct acc as [| last before].
    + destruct allow; [exact (IH _ Hrest Hpush) | exact (IH _ Hrest Hacc)].
    + destruct (negb (String.eqb last "..")).
      * apply IH; [exact Hrest |]. apply Forall_cons in Hacc as [_ Hbefore]. exact Hbefore.
      * destruct allow; [exact (IH _ Hrest Hpush) | exact (IH _ Hrest Hacc)].
Qed.

(** Normalized segments pass through normalizing unchanged. *)
Lemma normalizeSegments_clean allow segs :
  Forall (fun seg => seg <> EmptyString /\ seg <> "." /\ seg <> "..") segs ->
  forall acc, Posix.normalizeSegments allow segs acc = rev acc ++ segs.
Proof.
  induction 1 as [| seg rest (H0 & H1 & H2) _ IH]; intros acc.
  - cbn. rewrite app_nil_r. reflexivity.
  - change (seg :: rest) with ([seg] ++ rest).
    rewrite normalizeSegments_app, (normalizeSegments_name _ _ _ H0 H1 H2), IH.
    rewrite rev_involutive, <- app_assoc. reflexivity.
Qed.

Lemma normalizeSegments_cons allow seg rest acc :
  Posix.normalizeSegments allow (seg :: rest) acc =
  if String.eqb seg EmptyString || String.eqb seg "." then
    Posix.normalizeSegments allow rest acc
  else if String.eqb seg ".." then
    match acc with
    | last :: before =>
        if negb (String.eqb last "..") then Posix.normalizeSegments allow rest before
        else if allow then Posix.normalizeSegments allow rest (seg :: acc)
        else Posix.normalizeSegments allow rest acc
    | [] =>
        if allow then Posix.normalizeSegments allow rest [seg]
        else Posix.normalizeSegments allow rest []
    end
  else Posix.normalizeSegments allow rest (seg :: acc).
Proof. reflexivity. Qed.

(** Normalizing a relative path first, with climbing allowed, and then
    from a directory gives what normalizing from the directory gives. *)
Lemma normalizeSegments_twice segs :
  forall stack acc,
    Forall (fun seg => seg <> EmptyString /\ seg <> ".") stack ->
    Posix.normalizeSegments false segs
      (rev (Posix.normalizeSegments false (rev stack) acc)) =
    Posix.normalizeSegments false (Posix.normalizeSegments true segs stack) acc.
Proof.
  induction segs as [| seg rest IH]; intros stack acc Hstack.
  - cbn. rewrite rev_involutive. reflexivity.
  - assert (Hstep : forall next,
              Forall (fun x => x <> EmptyString /\ x <> ".") next ->
              rev (Posix.normalizeSegments false (rev next) acc) =
              rev (Posix.normalizeSegments false [seg]
                     (rev (Posix.normalizeSegments false (rev stack) acc))) ->
              Posix.normalizeSegments false (seg :: rest)
                (rev (Posix.normalizeSegments false (rev stack) acc)) =
              Posix.normalizeSegments false (Posix.normalizeSegments true rest next) acc).
    { intros next Hnext Heq. change (seg :: rest) with ([seg] ++ rest).
      rewrite normalizeSegments_app, <- Heq. exact (IH next acc Hnext). }
    assert (Hpushed :
              rev (Posix.normalizeSegments false (rev (seg :: stack)) acc) =
              rev (Posix.normalizeSegments false [seg]
                     (rev (Posix.normalizeSegments false (rev stack) acc)))).
    { cbn [rev]. rewrite normalizeSegments_app. reflexivity. }
    rewrite (normalizeSegments_cons true seg rest stack).
    destruct (String.eqb seg EmptyString || String.eqb seg ".") eqn:Hdrop.
    + apply Hstep; [exact Hstack |].
      rewrite normalizeSegments_dropped, rev_involutive; [reflexivity |].
      apply orb_true_iff in Hdrop as [H | H]; apply String.eqb_eq in H; auto.
    + apply orb_false_iff in Hdrop as [H0 H1]. apply String.eqb_neq in H0, H1.
      assert (Hnext : Forall (fun x => x <> EmptyString /\ x <> ".") (seg :: stack))
        by (constructor; [split; assumption | exact Hstack]).
      destruct (String.eqb seg "..") eqn:Hup; [| exact (Hstep _ Hnext Hpushed)].
      apply String.eqb_eq in Hup. subst seg.
      destruct stack as [| last before]; [exact (Hstep _ Hnext Hpushed) |].
      destruct (negb (String.eqb last "..")) eqn:Hlast; [| exact (Hstep _ Hnext Hpushed)].
      apply negb_true_iff, String.eqb_neq in Hlast.
      apply Forall_cons in Hstack as [[Hl0 Hl1] Hbefore].
      apply Hstep; [exact Hbefore |].
      cbn [rev]. rewrite normalizeSegments_app.
      rewrite (normalizeSegments_name _ _ _ Hl0 Hl1 Hlast), rev_involutive.
      rewrite rev_app_distr. cbn [rev app Posix.normalizeSegments].
      apply String.eqb_neq in Hlast. rewrite Hlast. cbn. rewrite rev_involutive.
      reflexivity.
Qed.

Lemma isAbsolute_append a b :
  a <> EmptyString -> Posix.isAbsolute (String.append a b) = Posix.isAbsolute a.
Proof. destruct a; [contradiction | reflexivity]. Qed.

Lemma isAbsolute_plain a : Js.has_char Js.slash a = false -> Posix.isAbsolute a = false.
Proof.
  destruct a as [| x a]; [reflexivity |]. cbn. intros H.
  apply orb_false_iff in H as [Hx _]. exact Hx.
Qed.

Lemma join_head sep seg rest :
  exists tail, Js.join sep (seg :: rest) = String.append seg tail.
Proof.
  destruct rest as [| next rest].
  - exists EmptyString. cbn. clear. induction seg as [| a seg IH]; [reflexivity |].
    change (String.append (String a seg) EmptyString)
      with (String a (String.append seg EmptyString)).
    rewrite <- IH. reflexivity.
  - eexists. reflexivity.
Qed.

Lemma join_empty sep segs :
  Forall (fun seg => seg <> EmptyString) segs -> Js.join sep segs = EmptyString -> segs = [].
Proof.
  intros Hsegs Hjoin. destruct segs as [| seg rest]; [reflexivity |].
  apply Forall_cons in Hsegs as [Hseg _].
  destruct (join_head sep seg rest) as (tail & Heq). rewrite Heq in Hjoin.
  destruct seg; [contradiction | discriminate].
Qed.

(** Resolving a normalized path is resolving the path. *)
Lemma resolve_normalize cwd p :
  Posix.resolve cwd (Posix.normalize p) = Posix.resolve cwd p.
Proof.
  unfold Posix.normalize.
  destruct (String.eqb p EmptyString) eqn:Hp.
  { apply String.eqb_eq in Hp. subst p. unfold Posix.resolve.
    change (Posix.isAbsolute ".") with false. change (Js.split Js.slash ".") with ["."].
    change (Posix.isAbsolute EmptyString) with false.
    change (Js.split Js.slash EmptyString) with [EmptyString].
    cbv iota. rewrite !normalizeSegments_app. reflexivity. }
  cbv zeta.
  pose proof (split_pieces_plain Js.slash p) as Hplain.
  destruct (Posix.isAbsolute p) eqn:Habs; cbn [negb].
  - set (N := Posix.normalizeSegments false (Js.split Js.slash p) []).
    assert (Hkept : Forall (fun seg => seg <> EmptyString /\ seg <> ".") N)
      by (apply normalizeSegments_kept; constructor).
    assert (Hdown : Forall (fun seg => seg <> "..") N)
      by (apply normalizeSegments_grounded; constructor).
    assert (Hslash : Forall (fun seg => Js.has_char Js.slash seg = false) N)
      by (apply normalizeSegments_within; [exact Hplain | constructor]).
    assert (Hclean : Forall (fun seg => seg <> EmptyString /\ seg <> "." /\ seg <> "..") N).
    { apply List.Forall_forall. intros x Hx.
      rewrite List.Forall_forall in Hkept, Hdown.
      destruct (Hkept x Hx). split; [assumption |]. split; [assumption | exact (Hdown x Hx)]. }
    replace (Posix.resolve cwd p) with N by (unfold Posix.resolve; rewrite Habs; reflexivity).
    clearbody N.
    destruct (String.eqb (Js.join "/" N) EmptyString) eqn:Hbody.
    + apply String.eqb_eq in Hbody.
      assert (HN : N = [])
        by (apply (join_empty "/");
            [eapply Forall_impl; [exact Hkept | intros x [H _]; exact H] | exact Hbody]).
      rewrite HN. reflexivity.
    + assert (Hne : N <> []) by (intros ->; discriminate Hbody).
      assert (Hsplit : Js.split Js.slash (Js.join "/" N) = N)
        by (exact (split_join_plain Js.slash N Hne Hslash)).
      destruct (Posix.endsWithSlash p).
      * unfold Posix.resolve.
        change (String.append "/" (String.append (Js.join "/" N) "/"))
          with (String Js.slash (String.append (Js.join "/" N) (String Js.slash EmptyString))).
        cbn [Posix.isAbsolute Js.split]. rewrite Ascii.eqb_refl.
        rewrite split_app, Hsplit. cbn [Js.split].
        rewrite normalizeSegments_cons. cbn [String.eqb orb].
        rewrite normalizeSegments_app, (normalizeSegments_clean _ _ Hclean).
        cbn [rev app]. rewrite normalizeSegments_dropped by (left; reflexivity).
        apply rev_involutive.
      * unfold Posix.resolve.
        change (String.append "/" (Js.join "/" N)) with (String Js.slash (Js.join "/" N)).
        cbn [Posix.isAbsolute Js.split]. rewrite Ascii.eqb_refl, Hsplit.
        rewrite normalizeSegments_cons. cbn [String.eqb orb].
        rewrite (normalizeSegments_clean _ _ Hclean). reflexivity.
  - set (N := Posix.normalizeSegments true (Js.split Js.slash p) []).
    assert (Hkept : Forall (fun seg => seg <> EmptyString /\ seg <> ".") N)
      by (apply normalizeSegments_kept; constructor).
    assert (Hslash : Forall (fun seg => Js.has_char Js.slash seg = false) N)
      by (apply normalizeSegments_within; [exact Hplain | constructor]).
    assert (Hfrom : forall acc,
              Posix.normalizeSegments false (Js.split Js.slash p) acc =
              Posix.normalizeSegments false N acc).
    { intros acc. pose proof (normalizeSegments_twice (Js.split Js.slash p) [] acc) as H.
      cbn [rev] in H. change (Posix.normalizeSegments false [] acc) with (rev acc) in H.
      rewrite rev_involutive in H. apply H. constructor. }
    replace (Posix.resolve cwd p)
      with (Posix.normalizeSegments false N
              (rev (Posix.normalizeSegments false (Js.split Js.slash cwd) [])))
      by (unfold Posix.resolve; rewrite Habs, normalizeSegments_app, Hfrom; reflexivity).
    clearbody N.
    destruct (String.eqb (Js.join "/" N) EmptyString) eqn:Hbody.
    + apply String.eqb_eq in Hbody.
      assert (HN : N = [])
        by (apply (join_empty "/");
            [eapply Forall_impl; [exact Hkept | intros x [H _]; exact H] | exact Hbody]).
      rewrite HN. unfold Posix.resolve.
      destruct (Posix.endsWithSlash p).
      * change (Posix.isAbsolute "./") with false.
        change (Js.split Js.slash "./") with ["."; EmptyString].
        cbv iota. rewrite normalizeSegments_app. reflexivity.
      * change (Posix.isAbsolute ".") with false.
        change (Js.split Js.slash ".") with ["."].
        cbv iota. rewrite normalizeSegments_app. reflexivity.
    + assert (Hne : N <> []) by (intros ->; discriminate Hbody).
      assert (Hsplit : Js.split Js.slash (Js.join "/" N) = N)
        by (exact (split_join_plain Js.slash N Hne Hslash)).
      assert (Hrel : forall tail,
                Posix.isAbsolute (String.append (Js.join "/" N) tail) = false).
      { intros tail. destruct N as [| seg rest]; [contradiction |].
        apply Forall_cons in Hkept as [[Hseg _] _]. apply Forall_cons in Hslash as [Hs _].
        destruct (join_head "/" seg rest) as (more & ->).
        destruct seg as [| x seg]; [contradiction |].
        cbn in Hs |- *. apply orb_false_iff in Hs as [Hx _]. exact Hx. }
      destruct (Posix.endsWithSlash p).
      * unfold Posix.resolve. rewrite Hrel.
        change (String.append (Js.join "/" N) "/")
          with (String.append (Js.join "/" N) (String Js.slash EmptyString)).
        rewrite split_app, Hsplit. cbn [Js.split].
        rewrite normalizeSegments_app, (normalizeSegments_app false N [EmptyString]).
        cbn [Posix.normalizeSegments String.eqb orb]. rewrite rev_involutive. reflexivity.
      * unfold Posix.resolve.
        assert (Hrel0 : Posix.isAbsolute (Js.join "/" N) = false).
        { destruct N as [| seg rest]; [contradiction |].
          apply Forall_cons in Hkept as [[Hseg _] _]. apply Forall_cons in Hslash as [Hs _].
          destruct (join_head "/" seg rest) as (more & ->).
          destruct seg as [| x seg]; [contradiction |].
          cbn in Hs |- *. apply orb_false_iff in Hs as [Hx _]. exact Hx. }
        rewrite Hrel0, Hsplit, normalizeSegments_app. reflexivity.
Qed.

(** The path built from a directory and a name that [readdir] can
    return resolves to the segments of the directory, then the name. *)
Lemma resolve_join_plain cwd dir name :
  Posix.plain name ->
  Posix.resolve cwd (Posix.join dir name) = Posix.resolve cwd dir ++ [name].
Proof.
  intros (H0 & H1 & H2 & Hslash). unfold Posix.join.
  assert (Hname : Js.nonempty name = true) by (destruct name; [contradiction | reflexivity]).
  cbn [List.filter]. rewrite Hname.
  destruct dir as [| x dir].
  - cbn [Js.nonempty]. change (Js.join "/" [name]) with name.
    rewrite resolve_normalize. unfold Posix.resolve.
    rewrite (isAbsolute_plain _ Hslash). cbn [Posix.isAbsolute Js.split].
    rewrite (split_plain _ _ Hslash), !normalizeSegments_app.
    rewrite (normalizeSegments_name _ _ _ H0 H1 H2), rev_involutive.
    cbn [Posix.normalizeSegments String.eqb orb]. rewrite rev_involutive. reflexivity.
  - cbn [Js.nonempty].
    change (Js.join "/" [String x dir; name])
      with (String.append (String x dir) (String Js.slash name)).
    rewrite resolve_normalize. unfold Posix.resolve.
    rewrite isAbsolute_append by discriminate.
    rewrite split_app, (split_plain _ _ Hslash).
    destruct (Posix.isAbsolute (String x dir)).
    + rewrite normalizeSegments_app, (normalizeSegments_name _ _ _ H0 H1 H2), rev_involutive.
      reflexivity.
    + rewrite app_assoc, normalizeSegments_app, (normalizeSegments_name _ _ _ H0 H1 H2).
      rewrite rev_involutive. reflexivity.
Qed.

Lemma resolve_joins_plain cwd names :
  Forall Posix.plain names ->
  forall dir,
    Posix.resolve cwd (fold_left Posix.join names dir) = Posix.resolve cwd dir ++ names.
Proof.
  induction 1 as [| name rest Hname _ IH]; intros dir; cbn [fold_left].
  - rewrite app_nil_r. reflexivity.
  - rewrite IH, (resolve_join_plain _ _ _ Hname), <- app_assoc. reflexivity.
Qed.

Lemma wellNamed_entry m files file child :
  wellNamed (Dir m files) -> In (file, child) files ->
  Posix.plain file /\ wellNamed child.
Proof.
  cbn [wellNamed]. induction files as [| [file0 child0] rest IH]; intros Hnamed Hin.
  - destruct Hin.
  - destruct Hnamed as (Hfile & Hchild & Hrest). destruct Hin as [Heq | Hin].
    + injection Heq as <- <-. split; assumption.
    + exact (IH Hrest Hin).
Qed.

(** The path of an entry the scan finds is the scanned directory joined
    with the names of the directories on the way and the entry's name. *)
Lemma scannedEntry_chain ignoreList dir t p name n :
  scannedEntry ignoreList dir t p name n ->
  wellNamed t ->
  exists dirs,
    p = fold_left Posix.join (dirs ++ [name]) dir /\ Forall Posix.plain (dirs ++ [name]).
Proof.
  induction 1 as [dir m files file child Hin
                 | dir m files file child p name n Hin _ _ _ IH]; intros Hnamed;
    destruct (wellNamed_entry _ _ _ _ Hnamed Hin) as [Hfile Hchild].
  - exists []. split; [reflexivity |]. constructor; [exact Hfile | constructor].
  - destruct (IH Hchild) as (dirs & -> & Hplain).
    exists (file :: dirs). split; [reflexivity |]. constructor; assumption.
Qed.

Lemma same_segments (l : list string) : Forall2 (fun a b => String.eqb a b = true) l l.
Proof. induction l as [| a l IH]; constructor; [apply String.eqb_refl | exact IH]. Qed.

Lemma relativeFrom_absolute cwd from to :
  Posix.isAbsolute from = true -> Posix.isAbsolute to = true ->
  Posix.relativeFrom cwd from to = Posix.relative from to.
Proof.
  intros Hfrom Hto. unfold Posix.relativeFrom, Posix.relative, Posix.resolve.
  rewrite Hfrom, Hto. reflexivity.
Qed.


(** ** [parseFileContent], [loadFiles] and [getFiles] *)

Section FsInputFacts.

Context {host : HostPath}.
Variable ignoreList : list string.
Variable fileExtensionsToProcess : list string.
Variable countTokens : string -> Z.
Variable hashFile : string -> string.

Local Abbreviation parse := (parseFileContent countTokens hashFile).
Local Abbreviation load := (loadFiles ignoreList fileExtensionsToProcess countTokens hashFile).
Local Abbreviation loadLoop := (loadEach countTokens hashFile).

(** The record of the regular file [File content m] found at [p]. *)
Local Abbreviation recordOf dir p content m :=
  {| filePath := Js.replace_backslashes (path_relative dir p);
     fileContent := content;
     fileTokensCount := countTokens content;
     fileHash := hashFile content;
     fileTimestamp := m |}.

(** The segments left of a path below a root are the segments below. *)
Lemma relativeSegments_below (eqb : string -> string -> bool) root root' segs :
  Forall2 (fun a b => eqb a b = true) root root' ->
  Posix.relativeSegments eqb root (root' ++ segs) = segs.
Proof.
  unfold Posix.relativeSegments.
  induction 1 as [| a b root root' Hab _ IH]; cbn [app Posix.stripCommon].
  - destruct segs; reflexivity.
  - rewrite Hab. exact IH.
Qed.

Lemma win32_resolve_has_drive cwd p : Win32.resolve cwd p <> Some [].
Proof.
  unfold Win32.resolve.
  destruct (Win32.driveOf cwd) as [[cwdDrive cwdTail] |]; [| discriminate].
  destruct (negb (Win32.startsWithSep cwdTail)); [discriminate |].
  destruct (Win32.driveOf p) as [[drive tail] |].
  - destruct (Win32.startsWithSep tail); discriminate.
  - destruct (Win32.startsWithTwoSeps p); [discriminate |].
    destruct (Win32.startsWithSep p); discriminate.
Qed.

Lemma parseFileContent_below os cwd fs dir filePathFull content file root root' segs :
  parseFileContent (host := hostAt os cwd) countTokens hashFile
    fs dir filePathFull content = Ok file ->
  resolveAt os cwd dir = Some root ->
  resolveAt os cwd filePathFull = Some (root' ++ segs) ->
  Forall2 (fun a b => sameSegment os a b = true) root root' ->
  Forall (fun seg => Js.has_char Js.backslash seg = false) segs ->
  filePath file = Js.join "/" segs.
Proof.
  intros Hparse Hroot Hfile Hsame Hsegs. unfold parseFileContent in Hparse.
  destruct (fs_statSync fs filePathFull) as [stats | e]; [| discriminate].
  injection Hparse as <-. cbn [filePath].
  destruct os; cbn [resolveAt] in Hroot, Hfile; cbn [sameSegment] in Hsame;
    cbn [hostAt path_relative].
  - assert (Hr : Posix.resolve cwd dir = root) by congruence.
    assert (Hf : Posix.resolve cwd filePathFull = root' ++ segs) by congruence.
    unfold Posix.relativeFrom. rewrite Hr, Hf.
    rewrite (relativeSegments_below String.eqb _ _ _ Hsame).
    apply replace_backslashes_join; [left; reflexivity | exact Hsegs].
  - unfold Win32.relativeFrom. rewrite Hroot, Hfile.
    destruct Hsame as [| drive drive' root root' Hdrive Hsame];
      [exfalso; exact (win32_resolve_has_drive _ _ Hroot) |].
    cbn [app]. rewrite Hdrive.
    rewrite (relativeSegments_below Win32.eqbNoCase _ _ _ Hsame).
    apply replace_backslashes_join; [right; reflexivity | exact Hsegs].
Qed.

(** C7, as amended. Relative-path portability: the [filePath] that
    [parseFileContent] returns never holds a backslash.  And take a root
    directory and a file beneath it, that is, a file whose resolved path
    is the resolved path of the root followed by the segments [segs];
    when no segment holds a backslash, the [filePath] is those segments
    joined by forward slashes, on a POSIX host and on a Windows host, in
    any working directory; and any host gives the same [filePath] for a
    file with the same segments beneath its root.  A root may be spelled
    otherwise than the leading segments of the file's path where the host
    takes them for the same: on Windows, in another case.  Windows paths
    are those [Win32.resolve] models: on a drive, not relative to a
    drive's own directory and without a UNC root. *)
Theorem relativePath_portable os cwd fs dir filePathFull content file :
  parseFileContent (host := hostAt os cwd) countTokens hashFile
    fs dir filePathFull content = Ok file ->
  Js.has_char Js.backslash (filePath file) = false /\
  forall root root' segs,
    resolveAt os cwd dir = Some root ->
    resolveAt os cwd filePathFull = Some (root' ++ segs) ->
    Forall2 (fun a b => sameSegment os a b = true) root root' ->
    Forall (fun seg => Js.has_char Js.backslash seg = false) segs ->
    filePath file = Js.join "/" segs /\
    forall os2 cwd2 fs2 dir2 filePathFull2 content2 file2 root2 root2',
      parseFileContent (host := hostAt os2 cwd2) countTokens hashFile
        fs2 dir2 filePathFull2 content2 = Ok file2 ->
      resolveAt os2 cwd2 dir2 = Some root2 ->
      resolveAt os2 cwd2 filePathFull2 = Some (root2' ++ segs) ->
      Forall2 (fun a b => sameSegment os2 a b = true) root2 root2' ->
      filePath file2 = filePath file.
Proof.
  intros Hparse. split.
  - unfold parseFileContent in Hparse.
    destruct (fs_statSync fs filePathFull) as [stats | e]; [| discriminate].
    injection Hparse as <-. apply replace_backslashes_clean.
  - intros root root' segs Hroot Hfile Hsame Hsegs.
    pose proof (parseFileContent_below _ _ _ _ _ _ _ _ _ _ Hparse Hroot Hfile Hsame Hsegs)
      as Hpath.
    split; [exact Hpath |].
    intros os2 cwd2 fs2 dir2 filePathFull2 content2 file2 root2 root2'
      Hparse2 Hroot2 Hfile2 Hsame2.
    rewrite Hpath.
    exact (parseFileContent_below _ _ _ _ _ _ _ _ _ _ Hparse2 Hroot2 Hfile2 Hsame2 Hsegs).
Qed.

(** X25. The relative path of a scanned file on a POSIX host: in a tree
    whose listings hold names as [readdir] returns them, the [filePath]
    that [parseFileContent] gives to the path of an entry the scan of
    [dir] finds is the names of the directories on the way and the
    entry's name, joined by forward slashes, with every backslash of a
    name turned into a forward slash; the working directory does not
    matter. *)
Theorem scanned_relativePath cwd fs dir t p name n content file :
  wellNamed t ->
  scannedEntry ignoreList dir t p name n ->
  parseFileContent (host := hostAt PosixPlatform cwd) countTokens hashFile
    fs dir p content = Ok file ->
  exists dirs,
    Posix.resolve cwd p = Posix.resolve cwd dir ++ dirs ++ [name] /\
    filePath file = Js.replace_backslashes (Js.join "/" (dirs ++ [name])).
Proof.
  intros Hnamed Hentry Hparse.
  destruct (scannedEntry_chain _ _ _ _ _ _ Hentry Hnamed) as (dirs & -> & Hplain).
  pose proof (resolve_joins_plain cwd _ Hplain dir) as Hbelow.
  exists dirs. split; [exact Hbelow |].
  unfold parseFileContent in Hparse.
  destruct (fs_statSync fs _) as [stats | e]; [| discriminate].
  injection Hparse as <-. cbn [filePath hostAt path_relative].
  unfold Posix.relativeFrom. rewrite Hbelow.
  rewrite (relativeSegments_below String.eqb _ _ _ (same_segments _)). reflexivity.
Qed.

Lemma read_regular fs p content m :
  lookup_path fs p = Some (File content m) ->
  fs_readFileSync fs p = Ok content /\
  fs_statSync fs p = Ok {| isDirectory := false; mtimeMs := m |}.
Proof. intros H. unfold fs_readFileSync, fs_statSync. rewrite H. split; reflexivity. Qed.

Lemma loadEach_regular fs dir filePaths :
  Forall (fun p => exists content m, lookup_path fs p = Some (File content m)) filePaths ->
  forall files st,
  exists new,
    fst (loadLoop fs dir filePaths files st) = Ok (files ++ new) /\
    Forall2 (fun p file => exists content m,
               lookup_path fs p = Some (File content m) /\
               content <> EmptyString /\
               file = recordOf dir p content m)
      (List.filter (readsText fs) filePaths) new.
Proof.
  induction 1 as [| p rest (content & m & Hp) _ IH]; intros files st.
  - exists []. cbn. rewrite app_nil_r. split; [reflexivity | constructor].
  - destruct (read_regular _ _ _ _ Hp) as [Hread Hstat].
    cbn [loadEach List.filter]. unfold readsText at 1. rewrite Hread.
    destruct content as [| c content].
    + cbn. exact (IH files st).
    + cbn [Js.nonempty negb orb String.length Nat.eqb].
      unfold parseFileContent. rewrite Hstat. cbn [mtimeMs].
      destruct (IH (files ++ [recordOf dir p (String c content) m]) (incr_completed st))
        as (new & Hrun & Hnew).
      exists (recordOf dir p (String c content) m :: new). split.
      * rewrite Hrun, <- app_assoc. reflexivity.
      * constructor; [| exact Hnew].
        exists (String c content), m. repeat split; [exact Hp | discriminate].
Qed.

(** C3, as amended. [loadFiles] itself leaves out the files whose text
    is empty: when the scan returns and every scanned path is a readable
    regular file, [loadFiles] returns, in scan order, one record for each
    scanned path whose text has positive length, and none for a path
    whose text has length zero. *)
Theorem loadFiles_skips_empty fs dir st filePaths :
  fst (getFilePaths ignoreList fileExtensionsToProcess dir
         (default Vanished (lookup_path fs dir)) st) = Ok filePaths ->
  Forall (fun p => exists content m, lookup_path fs p = Some (File content m)) filePaths ->
  exists files,
    fst (load fs dir st) = Ok files /\
    Forall2 (fun p file => exists content m,
               lookup_path fs p = Some (File content m) /\
               content <> EmptyString /\
               file = recordOf dir p content m)
      (List.filter (readsText fs) filePaths) files.
Proof.
  intros Hscan Hregular. unfold loadFiles.
  destruct (getFilePaths ignoreList fileExtensionsToProcess dir
              (default Vanished (lookup_path fs dir)) st) as [r st'].
  cbn in Hscan. subst r.
  destruct (loadEach_regular fs dir filePaths Hregular [] st') as (new & Hrun & Hnew).
  exists new. split; [exact Hrun | exact Hnew].
Qed.

(** *** The progress bar stays within its fifty cells

    [updateProgressBar] repeats a blank [50 - width] times, which needs
    [completedFiles <= totalFiles]; [loadFiles] keeps it so. *)

Lemma loadEach_counted fs dir filePaths :
  forall files st r st',
    loadLoop fs dir filePaths files st = (r, st') ->
    totalFiles st' = totalFiles st /\
    completedFiles st' <= completedFiles st + length filePaths.
Proof.
  induction filePaths as [| p rest IH]; intros files st r st' Hrun.
  - cbn in Hrun. injection Hrun as <- <-. split; lia.
  - cbn [loadEach] in Hrun.
    destruct (fs_readFileSync fs p) as [content | e];
      [| injection Hrun as <- <-; cbn [length]; split; lia].
    destruct (negb (Js.nonempty content) || (String.length content =? 0)%nat).
    + destruct (IH _ _ _ _ Hrun) as [Ht Hc]. cbn [length]. split; lia.
    + destruct (parse fs dir p content) as [file | e];
        [| injection Hrun as <- <-; cbn [length]; split; lia].
      destruct (IH _ _ _ _ Hrun) as [Ht Hc]. cbn in Ht, Hc. cbn [length]. split; lia.
Qed.

(** X4. The counters of [loadFiles]: when [completedFiles] is at most
    [totalFiles] before a call of [loadFiles], it is so after it, whether
    the call returns or throws. *)
Lemma loadFiles_counted fs dir st :
  completedFiles st <= totalFiles st ->
  completedFiles (load fs dir st).2 <= totalFiles (load fs dir st).2.
Proof.
  intros Hst. unfold loadFiles.
  destruct (getFilePaths ignoreList fileExtensionsToProcess dir
              (default Vanished (lookup_path fs dir)) st) as [[filePaths | e] st1] eqn:Hscan;
    destruct (getFilePaths_counted _ _ _ _ _ _ _ Hscan) as (Hc & Ht & Hlen).
  - specialize (Hlen filePaths eq_refl).
    destruct (loadEach countTokens hashFile fs dir filePaths [] st1) as [r st2] eqn:Hload.
    destruct (loadEach_counted _ _ _ _ _ _ _ Hload) as [Ht2 Hc2]. cbn [snd]. lia.
  - cbn [snd]. lia.
Qed.

(** *** What [loadFiles] returns and when it throws *)

Lemma read_ok_regular fs p content :
  fs_readFileSync fs p = Ok content ->
  exists m, lookup_path fs p = Some (File content m).
Proof.
  unfold fs_readFileSync.
  destruct (lookup_path fs p) as [[c m | m | m es | m | ] |]; try discriminate.
  intros H. injection H as <-. exists m. reflexivity.
Qed.

Local Abbreviation fingerprinted file :=
  (fileContent file <> EmptyString /\
   fileTokensCount file = countTokens (fileContent file) /\
   fileHash file = hashFile (fileContent file) /\
   Js.has_char Js.backslash (filePath file) = false).

Lemma loadEach_outcome fs dir filePaths :
  forall files st,
    match loadLoop fs dir filePaths files st with
    | (Ok out, st') =>
        exists new,
          out = files ++ new /\
          completedFiles st' = completedFiles st + length new /\
          Forall (fun file => fingerprinted file) new
    | (Throw e, _) => exists p, In p filePaths /\ fs_readFileSync fs p = Throw e
    end.
Proof.
  induction filePaths as [| p rest IH]; intros files st.
  - cbn. exists []. rewrite app_nil_r. repeat split; [cbn; lia | constructor].
  - cbn [loadEach].
    destruct (fs_readFileSync fs p) as [content | e] eqn:Hread;
      [| exists p; split; [left; reflexivity | exact Hread]].
    destruct content as [| c content].
    + cbn [Js.nonempty negb orb]. specialize (IH files st).
      destruct (loadLoop fs dir rest files st) as [[out | e] st']; [exact IH |].
      destruct IH as (q & Hq & He). exists q. split; [right; exact Hq | exact He].
    + cbn [Js.nonempty negb orb String.length Nat.eqb].
      destruct (read_ok_regular _ _ _ Hread) as (m & Hp).
      destruct (read_regular _ _ _ _ Hp) as [_ Hstat].
      unfold parseFileContent. rewrite Hstat. cbn [mtimeMs].
      specialize (IH (files ++ [recordOf dir p (String c content) m]) (incr_completed st)).
      destruct (loadLoop fs dir rest (files ++ [recordOf dir p (String c content) m])
                  (incr_completed st)) as [[out | e] st'].
      * destruct IH as (new & -> & Hcount & Hnew).
        exists (recordOf dir p (String c content) m :: new).
        rewrite <- app_assoc. split; [reflexivity |]. split.
        -- cbn in Hcount |- *. lia.
        -- constructor; [| exact Hnew]. cbn.
           repeat split; [discriminate | apply replace_backslashes_clean].
      * destruct IH as (q & Hq & He). exists q. split; [right; exact Hq | exact He].
Qed.

(** X5. A scanned path that cannot be read makes [loadFiles] throw: when
    the scan returns its paths and reading one of them fails,
    [loadFiles] returns no list but throws, and what it throws is the
    read error of a scanned path. *)
Theorem loadFiles_throws_on_unreadable fs dir st filePaths p err :
  fst (getFilePaths ignoreList fileExtensionsToProcess dir
         (default Vanished (lookup_path fs dir)) st) = Ok filePaths ->
  In p filePaths ->
  fs_readFileSync fs p = Throw err ->
  exists e q,
    fst (load fs dir st) = Throw e /\ In q filePaths /\ fs_readFileSync fs q = Throw e.
Proof.
  intros Hscan Hin Hfail. unfold loadFiles.
  destruct (getFilePaths ignoreList fileExtensionsToProcess dir
              (default Vanished (lookup_path fs dir)) st) as [r st1].
  cbn in Hscan. subst r.
  assert (Hok : forall files st0 out st',
            loadLoop fs dir filePaths files st0 = (Ok out, st') -> False).
  { clear st1. induction filePaths as [| q rest IH]; [destruct Hin |].
    intros files st0 out st' Hrun. cbn [loadEach] in Hrun.
    destruct Hin as [-> | Hin]; [rewrite Hfail in Hrun; discriminate |].
    destruct (fs_readFileSync fs q) as [content | e]; [| discriminate].
    destruct (negb (Js.nonempty content) || (String.length content =? 0)%nat);
      [exact (IH Hin _ _ _ _ Hrun) |].
    destruct (parse fs dir q content); [exact (IH Hin _ _ _ _ Hrun) | discriminate]. }
  pose proof (loadEach_outcome fs dir filePaths [] st1) as Hout.
  destruct (loadLoop fs dir filePaths [] st1) as [[out | e] st'] eqn:Hrun.
  - exfalso. exact (Hok _ _ _ _ Hrun).
  - destruct Hout as (q & Hq & He). exists e, q. auto.
Qed.

(** X6. The records of [loadFiles]: every record that [loadFiles]
    returns holds text of positive length, the token count and the hash
    of that very text, and a path without backslash. *)
Theorem loadFiles_records_fingerprinted fs dir st files :
  fst (load fs dir st) = Ok files ->
  Forall (fun file =>
            fileContent file <> EmptyString /\
            fileTokensCount file = countTokens (fileContent file) /\
            fileHash file = hashFile (fileContent file) /\
            Js.has_char Js.backslash (filePath file) = false) files.
Proof.
  unfold loadFiles.
  destruct (getFilePaths ignoreList fileExtensionsToProcess dir
              (default Vanished (lookup_path fs dir)) st) as [[filePaths | e] st1];
    [| discriminate].
  pose proof (loadEach_outcome fs dir filePaths [] st1) as Hout.
  destruct (loadLoop fs dir filePaths [] st1) as [[out | e] st']; [| discriminate].
  intros Heq. injection Heq as <-. destruct Hout as (new & -> & _ & Hnew). exact Hnew.
Qed.

(** X7. [completedFiles] counts the records: when [loadFiles] returns,
    [completedFiles] has grown by the number of records returned. *)
Theorem loadFiles_completed_is_records fs dir st files st' :
  load fs dir st = (Ok files, st') ->
  completedFiles st' = completedFiles st + length files.
Proof.
  unfold loadFiles.
  destruct (getFilePaths ignoreList fileExtensionsToProcess dir
              (default Vanished (lookup_path fs dir)) st) as [[filePaths | e] st1] eqn:Hscan;
    [| discriminate].
  destruct (getFilePaths_counted _ _ _ _ _ _ _ Hscan) as (Hc & _ & _).
  pose proof (loadEach_outcome fs dir filePaths [] st1) as Hout.
  destruct (loadLoop fs dir filePaths [] st1) as [[out | e] st2]; [| discriminate].
  intros Heq. injection Heq as <- <-. destruct Hout as (new & -> & Hcount & _).
  cbn [app]. lia.
Qed.

End FsInputFacts.

(** *** [getFiles] *)

Lemma getFilesEach_shape fs codeBaseDirectory (files : list (gmap string JsValue)) :
  Forall (fun file => exists rel,
            prop file "filePath" = JsString rel /\
            (truthy (prop file "exists") = true ->
             exists content,
               fs_readFileSync fs (Posix.join codeBaseDirectory rel) = Ok content)) files ->
  forall retFiles,
  exists new,
    getFilesEach fs codeBaseDirectory files retFiles = Ok (retFiles ++ new) /\
    Forall2 (fun file out => exists rel,
               prop file "filePath" = JsString rel /\
               if truthy (prop file "exists") then
                 exists content,
                   fs_readFileSync fs (Posix.join codeBaseDirectory rel) = Ok content /\
                   out = <["code" := JsString content]> file
               else out = <["code" := JsString newFileCode]> file)
      files new.
Proof.
  induction 1 as [| file rest (rel & Hrel & Hread) _ IH]; intros retFiles.
  - exists []. cbn. rewrite app_nil_r. split; [reflexivity | constructor].
  - cbn [getFilesEach]. rewrite Hrel. cbv zeta.
    destruct (truthy (prop file "exists")) eqn:Hflag.
    + destruct (Hread eq_refl) as (content & Hcontent). rewrite Hcontent.
      destruct (IH (retFiles ++ [<["code" := JsString content]> file])) as (new & Hrun & Hnew).
      exists (<["code" := JsString content]> file :: new). split.
      * rewrite Hrun, <- app_assoc. reflexivity.
      * constructor; [| exact Hnew]. exists rel. rewrite Hflag. eauto.
    + destruct (IH (retFiles ++ [<["code" := JsString newFileCode]> file]))
        as (new & Hrun & Hnew).
      exists (<["code" := JsString newFileCode]> file :: new). split.
      * rewrite Hrun, <- app_assoc. reflexivity.
      * constructor; [| exact Hnew]. exists rel. rewrite Hflag. eauto.
Qed.

(** C10. [getFiles] shape and placeholder: for file objects that each
    have a string [filePath], and whose file can be read when [exists] is
    truthy, [getFiles] returns a list of the same length in the same
    order; the element for an object whose [exists] is falsy is that
    object with [code] set to the literal comment, whatever the
    filesystem holds at its path, and the element for an object whose
    [exists] is truthy is that object with [code] set to the text read at
    [codeBaseDirectory] joined with its [filePath]. *)
Theorem getFiles_shape fs codeBaseDirectory (files : list (gmap string JsValue)) :
  Forall (fun file => exists rel,
            prop file "filePath" = JsString rel /\
            (truthy (prop file "exists") = true ->
             exists content,
               fs_readFileSync fs (Posix.join codeBaseDirectory rel) = Ok content)) files ->
  exists retFiles,
    getFiles fs codeBaseDirectory files = Ok retFiles /\
    length retFiles = length files /\
    Forall2 (fun file out => exists rel,
               prop file "filePath" = JsString rel /\
               if truthy (prop file "exists") then
                 exists content,
                   fs_readFileSync fs (Posix.join codeBaseDirectory rel) = Ok content /\
                   out = <["code" := JsString content]> file
               else out = <["code" := JsString newFileCode]> file)
      files retFiles.
Proof.
  intros Hfiles.
  destruct (getFilesEach_shape fs codeBaseDirectory files Hfiles []) as (new & Hrun & Hnew).
  exists new. split; [exact Hrun |]. split; [| exact Hnew].
  symmetry. exact (Forall2_length _ _ _ Hnew).
Qed.

Local Abbreviation coded fs codeBaseDirectory file out :=
  (exists rel,
     prop file "filePath" = JsString rel /\
     if truthy (prop file "exists") then
       exists content,
         fs_readFileSync fs (Posix.join codeBaseDirectory rel) = Ok content /\
         out = <["code" := JsString content]> file
     else out = <["code" := JsString newFileCode]> file).

Lemma getFilesEach_inv fs codeBaseDirectory (files : list (gmap string JsValue)) :
  forall retFiles out,
    getFilesEach fs codeBaseDirectory files retFiles = Ok out ->
    exists new,
      out = retFiles ++ new /\
      Forall2 (fun file o => coded fs codeBaseDirectory file o) files new.
Proof.
  induction files as [| file rest IH]; intros retFiles out Hrun.
  - cbn in Hrun. injection Hrun as <-. exists []. rewrite app_nil_r.
    split; [reflexivity | constructor].
  - cbn [getFilesEach] in Hrun.
    destruct (prop file "filePath") as [| | | | rel] eqn:Hrel; try discriminate.
    cbv zeta in Hrun.
    destruct (truthy (prop file "exists")) eqn:Hflag.
    + destruct (fs_readFileSync fs (Posix.join codeBaseDirectory rel)) as [content | e]
        eqn:Hread; [| discriminate].
      destruct (IH _ _ Hrun) as (new & -> & Hnew).
      exists (<["code" := JsString content]> file :: new).
      rewrite <- app_assoc. split; [reflexivity |].
      constructor; [| exact Hnew]. exists rel. rewrite Hflag. eauto.
    + destruct (IH _ _ Hrun) as (new & -> & Hnew).
      exists (<["code" := JsString newFileCode]> file :: new).
      rewrite <- app_assoc. split; [reflexivity |].
      constructor; [| exact Hnew]. exists rel. rewrite Hflag. eauto.
Qed.

Lemma prop_code_other (file : gmap string JsValue) v name :
  name <> "code" -> prop (<["code" := v]> file) name = prop file name.
Proof.
  intros Hne. unfold prop. rewrite lookup_insert_ne; [reflexivity |].
  intros Heq. apply Hne. symmetry. exact Heq.
Qed.

Lemma coded_other fs codeBaseDirectory file out name :
  coded fs codeBaseDirectory file out -> name <> "code" -> prop out name = prop file name.
Proof.
  intros (rel & _ & Hout) Hne.
  destruct (truthy (prop file "exists")).
  - destruct Hout as (content & _ & ->). exact (prop_code_other _ _ _ Hne).
  - rewrite Hout. exact (prop_code_other _ _ _ Hne).
Qed.

Lemma getFilesEach_app fs codeBaseDirectory (first second : list (gmap string JsValue)) :
  forall retFiles,
    getFilesEach fs codeBaseDirectory (first ++ second) retFiles =
    match getFilesEach fs codeBaseDirectory first retFiles with
    | Ok out => getFilesEach fs codeBaseDirectory second out
    | Throw e => Throw e
    end.
Proof.
  induction first as [| file rest IH]; intros retFiles; [reflexivity |].
  cbn [app getFilesEach].
  destruct (prop file "filePath"); try reflexivity. cbv zeta.
  destruct (truthy (prop file "exists")); [| apply IH].
  destruct (fs_readFileSync fs (Posix.join codeBaseDirectory s)); [apply IH | reflexivity].
Qed.

(** X8. [getFiles] returns only when every element could be served:
    when it returns a list, every element of the input has a string
    [filePath], and the file of every element whose [exists] is truthy
    was read. *)
Theorem getFiles_returns_only_if_all_read fs codeBaseDirectory
  (files retFiles : list (gmap string JsValue)) :
  getFiles fs codeBaseDirectory files = Ok retFiles ->
  Forall (fun file => exists rel,
            prop file "filePath" = JsString rel /\
            (truthy (prop file "exists") = true ->
             exists content,
               fs_readFileSync fs (Posix.join codeBaseDirectory rel) = Ok content)) files.
Proof.
  intros Hrun. destruct (getFilesEach_inv _ _ _ _ _ Hrun) as (new & _ & Hnew).
  clear Hrun. induction Hnew as [| file out rest outs (rel & Hrel & Hout) _ IH];
    [constructor |]. constructor; [| exact IH].
  exists rel. split; [exact Hrel |]. intros Hflag. rewrite Hflag in Hout.
  destruct Hout as (content & Hread & _). exists content. exact Hread.
Qed.

(** X9. A read error stops [getFiles]: when the elements before one
    element are served, and that element has a truthy [exists] and a file
    that cannot be read, [getFiles] throws the error of that read,
    whatever follows the element. *)
Theorem getFiles_read_error_propagates fs codeBaseDirectory
  (served later : list (gmap string JsValue)) file rel err :
  Forall (fun f => exists r,
            prop f "filePath" = JsString r /\
            (truthy (prop f "exists") = true ->
             exists content,
               fs_readFileSync fs (Posix.join codeBaseDirectory r) = Ok content)) served ->
  prop file "filePath" = JsString rel ->
  truthy (prop file "exists") = true ->
  fs_readFileSync fs (Posix.join codeBaseDirectory rel) = Throw err ->
  getFiles fs codeBaseDirectory (served ++ file :: later) = Throw (FsError err).
Proof.
  intros Hserved Hrel Hflag Hread. unfold getFiles. rewrite getFilesEach_app.
  destruct (getFilesEach_shape fs codeBaseDirectory served Hserved []) as (new & -> & _).
  cbn [getFilesEach]. rewrite Hrel. cbv zeta. rewrite Hflag, Hread. reflexivity.
Qed.

(** X10. [getFiles] needs a string [filePath] even for a new file: when
    the elements before one element are served and that element has no
    string [filePath], [getFiles] throws a type error, also when the
    element's [exists] is falsy and nothing would be read. *)
Theorem getFiles_needs_string_filePath fs codeBaseDirectory
  (served later : list (gmap string JsValue)) file :
  Forall (fun f => exists r,
            prop f "filePath" = JsString r /\
            (truthy (prop f "exists") = true ->
             exists content,
               fs_readFileSync fs (Posix.join codeBaseDirectory r) = Ok content)) served ->
  (forall rel, prop file "filePath" <> JsString rel) ->
  getFiles fs codeBaseDirectory (served ++ file :: later) = Throw (TypeError "path").
Proof.
  intros Hserved Hrel. unfold getFiles. rewrite getFilesEach_app.
  destruct (getFilesEach_shape fs codeBaseDirectory served Hserved []) as (new & -> & _).
  cbn [getFilesEach].
  destruct (prop file "filePath") as [| | | | rel]; try reflexivity.
  exfalso. exact (Hrel rel eq_refl).
Qed.

(** X11. [getFiles] changes nothing but [code]: each returned object
    has, under every name other than [code], what the input object at
    the same place has. *)
Theorem getFiles_keeps_other_properties fs codeBaseDirectory
  (files retFiles : list (gmap string JsValue)) :
  getFiles fs codeBaseDirectory files = Ok retFiles ->
  Forall2 (fun file out => forall name, name <> "code" -> prop out name = prop file name)
    files retFiles.
Proof.
  intros Hrun. destruct (getFilesEach_inv _ _ _ _ _ Hrun) as (new & -> & Hnew).
  clear Hrun. cbn [app]. induction Hnew as [| file out rest outs Hout _ IH];
    [constructor |]. constructor; [| exact IH].
  intros name Hne. exact (coded_other _ _ _ _ _ Hout Hne).
Qed.

(** X12. [getFiles] on its own result: giving [getFiles] the list it
    returned returns that list again. *)
Theorem getFiles_again fs codeBaseDirectory (files retFiles : list (gmap string JsValue)) :
  getFiles fs codeBaseDirectory files = Ok retFiles ->
  getFiles fs codeBaseDirectory retFiles = Ok retFiles.
Proof.
  intros Hrun. destruct (getFilesEach_inv _ _ _ _ _ Hrun) as (new & -> & Hnew).
  clear Hrun. cbn [app]. unfold getFiles.
  enough (Hloop : forall acc, getFilesEach fs codeBaseDirectory new acc = Ok (acc ++ new))
    by exact (Hloop []).
  induction Hnew as [| file out rest outs Hout _ IH]; intros acc.
  - cbn. rewrite app_nil_r. reflexivity.
  - assert (Hpath : prop out "filePath" = prop file "filePath")
      by (apply (coded_other _ _ _ _ _ Hout); discriminate).
    assert (Hflag : prop out "exists" = prop file "exists")
      by (apply (coded_other _ _ _ _ _ Hout); discriminate).
    destruct Hout as (rel & Hrel & Hout).
    cbn [getFilesEach]. rewrite Hpath, Hrel, Hflag. cbv zeta.
    destruct (truthy (prop file "exists")).
    + destruct Hout as (content & Hread & ->). rewrite Hread, insert_insert_eq.
      rewrite IH, <- app_assoc. reflexivity.
    + rewrite Hout, insert_insert_eq. rewrite IH, <- app_assoc. reflexivity.
Qed.

(** ** db.js *)

Lemma db_run_outcome db statement w :
  db_run db statement w =
  match nextOutcome w with
  | Some err =>
      (Some err,
       {| databases := databases w; faults := tail (faults w); console := console w |})
  | None =>
      (None,
       {| databases := <[db := statement (default ∅ (databases w !! db))]> (databases w);
          faults := tail (faults w);
          console := console w |})
  end.
Proof.
  unfold db_run, nextOutcome. destruct (faults w) as [| [err |] later]; reflexivity.
Qed.

Section DbFacts.

Variable path_join : string -> string -> string.
Variable getCodeBaseAutopilotDirectory : string -> string.
Variable countTokens : string -> Z.

Local Abbreviation dbFile := (getDBFilePath path_join getCodeBaseAutopilotDirectory).
Local Abbreviation connect := (getDB path_join getCodeBaseAutopilotDirectory).
Local Abbreviation upsert :=
  (insertOrUpdateFile path_join getCodeBaseAutopilotDirectory countTokens).
Local Abbreviation row := (boundRow countTokens).

Lemma getDB_fst dir w : (connect dir w).1 = dbFile dir.
Proof. reflexivity. Qed.

(** Opening the connection rewrites no row. *)
Lemma getDB_tables dir w db :
  default ∅ (databases (connect dir w).2 !! db) = default ∅ (databases w !! db).
Proof.
  unfold getDB, createFilesTable. cbv zeta. rewrite db_run_outcome.
  destruct (nextOutcome _); cbn; [reflexivity |].
  destruct (decide (dbFile dir = db)) as [-> | Hne].
  - rewrite lookup_insert_eq. reflexivity.
  - rewrite lookup_insert_ne by exact Hne. reflexivity.
Qed.

Lemma insertOrUpdateFile_failed dir file text dependenciesLibs w err :
  nextOutcome (connect dir w).2 = Some err ->
  upsert dir file text dependenciesLibs w =
  (Ok tt,
   say (UpsertError err)
     {| databases := databases (connect dir w).2;
        faults := tail (faults (connect dir w).2);
        console := console (connect dir w).2 |}).
Proof.
  intros Hfail. unfold insertOrUpdateFile.
  destruct (connect dir w) as [db w1] eqn:Hconn. cbn [snd] in *.
  rewrite db_run_outcome, Hfail. reflexivity.
Qed.

Lemma insertOrUpdateFile_succeeded dir file text dependenciesLibs w :
  nextOutcome (connect dir w).2 = None ->
  upsert dir file text dependenciesLibs w =
  (Ok tt,
   say (FileUpserted (filePath file))
     {| databases :=
          <[dbFile dir :=
              insert_or_replace (row file text dependenciesLibs)
                (default ∅ (databases (connect dir w).2 !! dbFile dir))]>
            (databases (connect dir w).2);
        faults := tail (faults (connect dir w).2);
        console := console (connect dir w).2 |}).
Proof.
  intros Hgood. unfold insertOrUpdateFile.
  pose proof (getDB_fst dir w) as Hdb.
  destruct (connect dir w) as [db w1] eqn:Hconn. cbn [fst snd] in *. subst db.
  rewrite db_run_outcome, Hgood. reflexivity.
Qed.

(** C4, as amended. A store error does not reach the caller of
    [insertOrUpdateFile]: when the INSERT fails, the call still returns
    normally with no value, as it does on success; the tables are as the
    connection left them; the error is the last line written to the
    console, and no success line is written. *)
Theorem upsert_error_logged_not_returned dir file text dependenciesLibs w err :
  nextOutcome (connect dir w).2 = Some err ->
  (upsert dir file text dependenciesLibs w).1 = Ok tt /\
  databases (upsert dir file text dependenciesLibs w).2 =
    databases (connect dir w).2 /\
  console (upsert dir file text dependenciesLibs w).2 =
    console (connect dir w).2 ++ [UpsertError err].
Proof.
  intros Hfail. rewrite (insertOrUpdateFile_failed _ _ _ _ _ _ Hfail).
  repeat split.
Qed.

Lemma stored_lookup w db p r :
  stored w db p r <-> default ∅ (databases w !! db) !! p = Some r.
Proof.
  unfold stored. split.
  - intros (t & -> & Hr). exact Hr.
  - destruct (databases w !! db) as [t |]; cbn; intros Hr.
    + exists t. split; [reflexivity | exact Hr].
    + rewrite lookup_empty in Hr. discriminate.
Qed.

Lemma getDB_databases_present dir w t :
  databases w !! dbFile dir = Some t ->
  databases (connect dir w).2 = databases w.
Proof.
  intros Hpresent. unfold getDB, createFilesTable. cbv zeta. rewrite db_run_outcome.
  destruct (nextOutcome _); cbn; [reflexivity |].
  rewrite Hpresent. cbn. apply insert_id. exact Hpresent.
Qed.

Lemma upsert_tables_succeeded dir file text dependenciesLibs w db :
  nextOutcome (connect dir w).2 = None ->
  default ∅ (databases (upsert dir file text dependenciesLibs w).2 !! db) =
  if decide (dbFile dir = db)
  then <[filePath file := row file text dependenciesLibs]> (default ∅ (databases w !! db))
  else default ∅ (databases w !! db).
Proof.
  intros Hgood. rewrite (insertOrUpdateFile_succeeded _ _ _ _ _ Hgood).
  cbn [snd say databases].
  destruct (decide (dbFile dir = db)) as [<- | Hne].
  - rewrite lookup_insert_eq, getDB_tables. reflexivity.
  - rewrite lookup_insert_ne by exact Hne. apply getDB_tables.
Qed.

Lemma upsert_tables_failed dir file text dependenciesLibs w db err :
  nextOutcome (connect dir w).2 = Some err ->
  default ∅ (databases (upsert dir file text dependenciesLibs w).2 !! db) =
  default ∅ (databases w !! db).
Proof.
  intros Hfail. rewrite (insertOrUpdateFile_failed _ _ _ _ _ _ Hfail).
  cbn [snd say databases]. apply getDB_tables.
Qed.

(** C6. Upsert is a full-row, idempotent replacement: when the INSERT
    succeeds, the row stored at the entry's path is the row made of the
    seven values of the call, whatever was stored there before; the rows
    at other paths are as they were; and making the same call again
    leaves the stored tables as the first call left them. *)
Theorem upsert_full_row_idempotent dir file text dependenciesLibs w :
  nextOutcome (connect dir w).2 = None ->
  stored (upsert dir file text dependenciesLibs w).2 (dbFile dir) (filePath file)
    {| path := filePath file;
       tokensCount := fileTokensCount file;
       summary := text;
       summaryTokensCount := countTokens text;
       hash := fileHash file;
       timestamp := fileTimestamp file;
       dependenciesLibs := dependenciesLibs |} /\
  (forall p r, p <> filePath file ->
     stored (upsert dir file text dependenciesLibs w).2 (dbFile dir) p r <->
     stored w (dbFile dir) p r) /\
  databases (upsert dir file text dependenciesLibs
               (upsert dir file text dependenciesLibs w).2).2 =
  databases (upsert dir file text dependenciesLibs w).2.
Proof.
  intros Hgood.
  pose proof (upsert_tables_succeeded dir file text dependenciesLibs w (dbFile dir) Hgood)
    as Htable.
  rewrite decide_True in Htable by reflexivity.
  split; [| split].
  - apply stored_lookup. rewrite Htable. apply lookup_insert_eq.
  - intros p r Hp. rewrite !stored_lookup, Htable.
    rewrite lookup_insert_ne by (intros Heq; apply Hp; symmetry; exact Heq).
    reflexivity.
  - set (w1 := (upsert dir file text dependenciesLibs w).2) in *.
    assert (Hpresent : exists t, databases w1 !! dbFile dir = Some t /\
                         t !! filePath file = Some (row file text dependenciesLibs)).
    { subst w1. rewrite (insertOrUpdateFile_succeeded _ _ _ _ _ Hgood).
      cbn [snd say databases]. rewrite lookup_insert_eq. eexists. split; [reflexivity |].
      apply lookup_insert_eq. }
    destruct Hpresent as (t & Ht & Hrow).
    pose proof (getDB_databases_present dir w1 t Ht) as Hsame.
    destruct (nextOutcome (connect dir w1).2) as [err |] eqn:Hnext.
    + rewrite (insertOrUpdateFile_failed _ _ _ _ _ _ Hnext). cbn [snd say databases].
      exact Hsame.
    + rewrite (insertOrUpdateFile_succeeded _ _ _ _ _ Hnext). cbn [snd say databases].
      rewrite Hsame, Ht. cbn [default]. unfold insert_or_replace.
      change (path (row file text dependenciesLibs)) with (filePath file).
      rewrite (insert_id t _ _ Hrow). apply insert_id. exact Ht.
Qed.

(** C9. Summary and token count stay coupled: after a call of
    [insertOrUpdateFile], a stored row either was stored before the call,
    under the same key of the same database, or holds the summary of the
    call together with [countTokens] of that summary. *)
Theorem summary_tokens_coupled dir file text dependenciesLibs w db p r :
  stored (upsert dir file text dependenciesLibs w).2 db p r ->
  stored w db p r \/
  (summary r = text /\ summaryTokensCount r = countTokens (summary r)).
Proof.
  rewrite !stored_lookup.
  destruct (nextOutcome (connect dir w).2) as [err |] eqn:Hnext.
  - rewrite (upsert_tables_failed _ _ _ _ _ _ _ Hnext). intros Hr. left. exact Hr.
  - rewrite (upsert_tables_succeeded _ _ _ _ _ _ Hnext).
    destruct (decide (dbFile dir = db)) as [_ | _]; [| intros Hr; left; exact Hr].
    destruct (decide (filePath file = p)) as [<- | Hne].
    + rewrite lookup_insert_eq. intros Hr. injection Hr as <-. right. split; reflexivity.
    + rewrite lookup_insert_ne by exact Hne. intros Hr. left. exact Hr.
Qed.

(** *** [deleteFile], [createDB] and [getDBFiles] *)

Local Abbreviation remove := (deleteFile path_join getCodeBaseAutopilotDirectory).
Local Abbreviation create := (createDB path_join getCodeBaseAutopilotDirectory).
Local Abbreviation listFiles := (getDBFiles path_join getCodeBaseAutopilotDirectory).

Lemma stored_same_tables w1 w2 :
  (forall db, default ∅ (databases w1 !! db) = default ∅ (databases w2 !! db)) ->
  forall db p r, stored w1 db p r <-> stored w2 db p r.
Proof. intros Hsame db p r. rewrite !stored_lookup, Hsame. reflexivity. Qed.

Lemma createFilesTable_tables db0 w db :
  default ∅ (databases (createFilesTable db0 w) !! db) = default ∅ (databases w !! db).
Proof.
  unfold createFilesTable. rewrite db_run_outcome.
  destruct (nextOutcome w); cbn; [reflexivity |].
  destruct (decide (db0 = db)) as [-> | Hne].
  - rewrite lookup_insert_eq. reflexivity.
  - rewrite lookup_insert_ne by exact Hne. reflexivity.
Qed.

Lemma createDB_tables dir w db :
  default ∅ (databases (create dir w) !! db) = default ∅ (databases w !! db).
Proof.
  unfold createDB. pose proof (getDB_tables dir w db) as Hconn.
  destruct (connect dir w) as [db0 w1]. cbn [snd] in Hconn.
  rewrite createFilesTable_tables. exact Hconn.
Qed.

Lemma deleteFile_failed dir p w err :
  nextOutcome (connect dir w).2 = Some err ->
  remove dir p w =
  (Ok tt,
   say (DeleteError err)
     {| databases := databases (connect dir w).2;
        faults := tail (faults (connect dir w).2);
        console := console (connect dir w).2 |}).
Proof.
  intros Hfail. unfold deleteFile.
  destruct (connect dir w) as [db w1] eqn:Hconn. cbn [snd] in *.
  rewrite db_run_outcome, Hfail. reflexivity.
Qed.

Lemma deleteFile_succeeded dir p w :
  nextOutcome (connect dir w).2 = None ->
  remove dir p w =
  (Ok tt,
   say (FileDeleted p)
     {| databases :=
          <[dbFile dir :=
              delete_where_path p (default ∅ (databases (connect dir w).2 !! dbFile dir))]>
            (databases (connect dir w).2);
        faults := tail (faults (connect dir w).2);
        console := console (connect dir w).2 |}).
Proof.
  intros Hgood. unfold deleteFile.
  pose proof (getDB_fst dir w) as Hdb.
  destruct (connect dir w) as [db w1] eqn:Hconn. cbn [fst snd] in *. subst db.
  rewrite db_run_outcome, Hgood. reflexivity.
Qed.

Lemma deleteFile_tables dir p w db :
  default ∅ (databases (remove dir p w).2 !! db) =
  match nextOutcome (connect dir w).2 with
  | None =>
      if decide (dbFile dir = db) then delete p (default ∅ (databases w !! db))
      else default ∅ (databases w !! db)
  | Some _ => default ∅ (databases w !! db)
  end.
Proof.
  destruct (nextOutcome (connect dir w).2) as [err |] eqn:Hnext.
  - rewrite (deleteFile_failed _ _ _ _ Hnext). cbn [snd say databases]. apply getDB_tables.
  - rewrite (deleteFile_succeeded _ _ _ Hnext). cbn [snd say databases].
    destruct (decide (dbFile dir = db)) as [<- | Hne].
    + rewrite lookup_insert_eq, getDB_tables. reflexivity.
    + rewrite lookup_insert_ne by exact Hne. apply getDB_tables.
Qed.

Lemma upsert_tables dir file text dependenciesLibs w db :
  default ∅ (databases (upsert dir file text dependenciesLibs w).2 !! db) =
  match nextOutcome (connect dir w).2 with
  | None =>
      if decide (dbFile dir = db)
      then <[filePath file := row file text dependenciesLibs]> (default ∅ (databases w !! db))
      else default ∅ (databases w !! db)
  | Some _ => default ∅ (databases w !! db)
  end.
Proof.
  destruct (nextOutcome (connect dir w).2) as [err |] eqn:Hnext.
  - exact (upsert_tables_failed _ _ _ _ _ _ _ Hnext).
  - exact (upsert_tables_succeeded _ _ _ _ _ _ Hnext).
Qed.

Lemma getDBFiles_failed dir w err :
  nextOutcome (connect dir w).2 = Some err ->
  listFiles dir w =
  (Throw err,
   {| databases := databases (connect dir w).2;
      faults := tail (faults (connect dir w).2);
      console := console (connect dir w).2 |}).
Proof.
  intros Hfail. unfold getDBFiles, nextOutcome in *.
  destruct (connect dir w) as [db w1]. cbn [snd] in *.
  destruct (faults w1) as [| [e |] later]; try discriminate.
  injection Hfail as ->. reflexivity.
Qed.

Lemma getDBFiles_succeeded dir w :
  nextOutcome (connect dir w).2 = None ->
  listFiles dir w =
  (Ok (select_path_hash_timestamp (default ∅ (databases w !! dbFile dir))),
   say (FilesRetrieved (select_path_hash_timestamp (default ∅ (databases w !! dbFile dir))))
     {| databases := databases (connect dir w).2;
        faults := tail (faults (connect dir w).2);
        console := console (connect dir w).2 |}).
Proof.
  intros Hgood. unfold getDBFiles, nextOutcome in *.
  pose proof (getDB_fst dir w) as Hdb. pose proof (getDB_tables dir w (dbFile dir)) as Ht.
  destruct (connect dir w) as [db w1]. cbn [fst snd] in *. subst db. rewrite Ht.
  destruct (faults w1) as [| [e |] later]; try discriminate; reflexivity.
Qed.

Lemma getDBFiles_tables dir w db :
  default ∅ (databases (listFiles dir w).2 !! db) = default ∅ (databases w !! db).
Proof.
  destruct (nextOutcome (connect dir w).2) as [err |] eqn:Hnext.
  - rewrite (getDBFiles_failed _ _ _ Hnext). cbn [snd databases]. apply getDB_tables.
  - rewrite (getDBFiles_succeeded _ _ Hnext). cbn [snd say databases]. apply getDB_tables.
Qed.

Lemma elem_of_select (t : gmap string Row) m :
  m ∈ select_path_hash_timestamp t <->
  exists p r, t !! p = Some r /\
              m = {| m_path := path r; m_hash := hash r; m_timestamp := timestamp r |}.
Proof.
  unfold select_path_hash_timestamp. rewrite list_elem_of_fmap. split.
  - intros ([p r] & -> & Hin). apply elem_of_map_to_list in Hin. exists p, r. auto.
  - intros (p & r & Hr & ->). exists (p, r). split; [reflexivity |].
    apply elem_of_map_to_list. exact Hr.
Qed.

(** X13. [deleteFile] removes the row of the path and no other: when
    the DELETE succeeds, the database of the codebase stores no row under
    the path, and under every other key it stores what it stored
    before. *)
Theorem deleteFile_removes_row dir p w :
  nextOutcome (connect dir w).2 = None ->
  (forall r, ~ stored (remove dir p w).2 (dbFile dir) p r) /\
  (forall q r, q <> p ->
     stored (remove dir p w).2 (dbFile dir) q r <-> stored w (dbFile dir) q r).
Proof.
  intros Hgood.
  pose proof (deleteFile_tables dir p w (dbFile dir)) as Ht.
  rewrite Hgood, decide_True in Ht by reflexivity. split.
  - intros r Hr. apply stored_lookup in Hr. rewrite Ht, lookup_delete_eq in Hr.
    discriminate.
  - intros q r Hq. rewrite !stored_lookup, Ht.
    rewrite lookup_delete_ne by (intros Heq; apply Hq; symmetry; exact Heq).
    reflexivity.
Qed.

(** X14. Deleting a path that is not stored is no error and changes no
    row: [deleteFile] returns normally and every database stores what it
    stored before, whether the DELETE succeeds or fails. *)
Theorem deleteFile_absent_changes_nothing dir p w :
  (forall r, ~ stored w (dbFile dir) p r) ->
  (remove dir p w).1 = Ok tt /\
  forall db q r, stored (remove dir p w).2 db q r <-> stored w db q r.
Proof.
  intros Habsent. split.
  - destruct (nextOutcome (connect dir w).2) as [err |] eqn:Hnext.
    + rewrite (deleteFile_failed _ _ _ _ Hnext). reflexivity.
    + rewrite (deleteFile_succeeded _ _ _ Hnext). reflexivity.
  - apply stored_same_tables. intros db. rewrite deleteFile_tables.
    destruct (nextOutcome (connect dir w).2); [reflexivity |].
    destruct (decide (dbFile dir = db)) as [<- | _]; [| reflexivity].
    apply delete_id.
    destruct (default ∅ (databases w !! dbFile dir) !! p) as [r |] eqn:Hr; [| reflexivity].
    exfalso. apply (Habsent r), stored_lookup. exact Hr.
Qed.

(** X15. A failed DELETE is logged, not returned: when the DELETE
    fails, [deleteFile] returns normally, every database stores what it
    stored before, and the error is the last line on the console. *)
Theorem deleteFile_error_logged_not_returned dir p w err :
  nextOutcome (connect dir w).2 = Some err ->
  (remove dir p w).1 = Ok tt /\
  (forall db q r, stored (remove dir p w).2 db q r <-> stored w db q r) /\
  console (remove dir p w).2 = console (connect dir w).2 ++ [DeleteError err].
Proof.
  intros Hfail. split; [| split].
  - rewrite (deleteFile_failed _ _ _ _ Hfail). reflexivity.
  - apply stored_same_tables. intros db. rewrite deleteFile_tables, Hfail. reflexivity.
  - rewrite (deleteFile_failed _ _ _ _ Hfail). reflexivity.
Qed.

(** X17. [getDBFiles] lists the stored rows: when the SELECT succeeds,
    the rows returned are the path, hash and timestamp of the rows that
    the database of the codebase stores, each stored row giving one. *)
Theorem getDBFiles_lists_stored_rows dir w :
  nextOutcome (connect dir w).2 = None ->
  exists rows,
    (listFiles dir w).1 = Ok rows /\
    forall m,
      m ∈ rows <->
      exists p r, stored w (dbFile dir) p r /\
                  m = {| m_path := path r; m_hash := hash r; m_timestamp := timestamp r |}.
Proof.
  intros Hgood. rewrite (getDBFiles_succeeded _ _ Hgood). eexists. split; [reflexivity |].
  intros m. rewrite elem_of_select. setoid_rewrite stored_lookup. reflexivity.
Qed.

(** X18. [getDBFiles] propagates a store error: when the SELECT fails,
    the call throws that error, writes no row listing to the console, and
    every database stores what it stored before. *)
Theorem getDBFiles_error_propagates dir w err :
  nextOutcome (connect dir w).2 = Some err ->
  (listFiles dir w).1 = Throw err /\
  console (listFiles dir w).2 = console (connect dir w).2 /\
  forall db q r, stored (listFiles dir w).2 db q r <-> stored w db q r.
Proof.
  intros Hfail. split; [| split].
  - rewrite (getDBFiles_failed _ _ _ Hfail). reflexivity.
  - rewrite (getDBFiles_failed _ _ _ Hfail). reflexivity.
  - apply stored_same_tables. intros db. apply getDBFiles_tables.
Qed.

(** X20. Connecting, creating and listing change no row: after [getDB],
    [createDB] or [getDBFiles], every database stores what it stored
    before, whatever the statements' outcomes. *)
Theorem reading_calls_keep_rows dir w db q r :
  (stored (connect dir w).2 db q r <-> stored w db q r) /\
  (stored (create dir w) db q r <-> stored w db q r) /\
  (stored (listFiles dir w).2 db q r <-> stored w db q r).
Proof.
  split; [| split]; apply stored_same_tables; intros db0.
  - apply getDB_tables.
  - apply createDB_tables.
  - apply getDBFiles_tables.
Qed.

(** X22. The path column stays the key: when every stored row sits under
    its own path, it is still so after [insertOrUpdateFile], after
    [deleteFile], after [createDB] and after [getDBFiles]. *)
Theorem keyed_preserved dir file text dependenciesLibs p w :
  keyed w ->
  keyed (upsert dir file text dependenciesLibs w).2 /\
  keyed (remove dir p w).2 /\
  keyed (create dir w) /\
  keyed (listFiles dir w).2.
Proof.
  intros Hkeyed. unfold keyed in *. repeat split; intros db q r; rewrite stored_lookup.
  - rewrite upsert_tables. destruct (nextOutcome _);
      [intros Hr; apply (Hkeyed db), stored_lookup, Hr |].
    destruct (decide (dbFile dir = db)) as [_ | _];
      [| intros Hr; apply (Hkeyed db), stored_lookup, Hr].
    destruct (decide (filePath file = q)) as [<- | Hne].
    + rewrite lookup_insert_eq. intros Hr. injection Hr as <-. reflexivity.
    + rewrite lookup_insert_ne by exact Hne. intros Hr. apply (Hkeyed db), stored_lookup, Hr.
  - rewrite deleteFile_tables. destruct (nextOutcome _);
      [intros Hr; apply (Hkeyed db), stored_lookup, Hr |].
    destruct (decide (dbFile dir = db)) as [_ | _];
      [| intros Hr; apply (Hkeyed db), stored_lookup, Hr].
    rewrite lookup_delete. destruct (decide (p = q)); [discriminate |].
    intros Hr. apply (Hkeyed db), stored_lookup, Hr.
  - rewrite createDB_tables. intros Hr. apply (Hkeyed db), stored_lookup, Hr.
  - rewrite getDBFiles_tables. intros Hr. apply (Hkeyed db), stored_lookup, Hr.
Qed.

(** X23. A listing names each path once: when every stored row sits
    under its own path and the SELECT succeeds, no two rows that
    [getDBFiles] returns have the same path. *)
Theorem getDBFiles_distinct_paths dir w rows :
  keyed w ->
  (listFiles dir w).1 = Ok rows ->
  NoDup (m_path <$> rows).
Proof.
  intros Hkeyed Hrun.
  destruct (nextOutcome (connect dir w).2) as [err |] eqn:Hnext.
  - rewrite (getDBFiles_failed _ _ _ Hnext) in Hrun. discriminate.
  - rewrite (getDBFiles_succeeded _ _ Hnext) in Hrun. injection Hrun as <-.
    unfold select_path_hash_timestamp. rewrite <- list_fmap_compose.
    set (t := default ∅ (databases w !! dbFile dir)).
    assert (Hfst : Forall (fun kv : string * Row =>
                             (m_path ∘ (fun kv : string * Row =>
                                {| m_path := path kv.2; m_hash := hash kv.2;
                                   m_timestamp := timestamp kv.2 |})) kv = kv.1)
                     (map_to_list t)).
    { apply List.Forall_forall. intros [k r] Hin. cbn.
      apply list_elem_of_In, elem_of_map_to_list in Hin.
      apply (Hkeyed (dbFile dir)), stored_lookup. exact Hin. }
    rewrite (Forall_fmap_ext_1 _ _ _ Hfst). apply NoDup_fst_map_to_list.
Qed.

End DbFacts.

(** ** The Reconciler *)

Lemma classify_not_Removed index r : classify index r <> Removed.
Proof.
  unfold classify. destruct (index !! filePath r) as [h |]; [| discriminate].
  destruct (String.eqb h (fileHash r)); discriminate.
Qed.

(** The classes as the spec words them. *)
Lemma members_reconcile L M c p :
  p ∈ members (reconcile L M) c <->
  match c with
  | Removed => p ∈ m_path <$> M /\ p ∉ filePath <$> L
  | _ => exists r, r ∈ L /\ filePath r = p /\ classify (manifestIndex M) r = c
  end.
Proof.
  destruct c; cbn [members reconcile added modified unchanged removed];
    rewrite list_elem_of_fmap; setoid_rewrite list_elem_of_filter.
  1-3: split; [intros (r & -> & Hc & Hr); exists r; auto
              | intros (r & Hr & <- & Hc); exists r; auto].
  unfold livePaths. setoid_rewrite elem_of_list_to_set.
  rewrite list_elem_of_fmap. split.
  - intros (m & -> & Hlive & Hm). split; [exists m; auto | exact Hlive].
  - intros ((m & -> & Hm) & Hlive). exists m. auto.
Qed.

Lemma manifestIndex_absent M p :
  manifestIndex M !! p = None <-> p ∉ m_path <$> M.
Proof.
  unfold manifestIndex. rewrite <- not_elem_of_list_to_map.
  rewrite <- list_fmap_compose. reflexivity.
Qed.

Lemma added_reconcile L M p :
  p ∈ added (reconcile L M) <-> p ∈ filePath <$> L /\ p ∉ m_path <$> M.
Proof.
  rewrite (members_reconcile L M Added p), list_elem_of_fmap. split.
  - intros (r & Hr & <- & Hc). split; [exists r; auto |].
    apply manifestIndex_absent. unfold classify in Hc.
    destruct (manifestIndex M !! filePath r) as [h |]; [| reflexivity].
    destruct (String.eqb h (fileHash r)); discriminate.
  - intros ((r & -> & Hr) & Habsent). exists r. split; [exact Hr |]. split; [reflexivity |].
    apply manifestIndex_absent in Habsent. unfold classify. rewrite Habsent. reflexivity.
Qed.

(** Hash authority: a live record whose hash is the stored one is
    Unchanged whatever the two timestamps are. *)
Lemma unchanged_by_hash M r h :
  manifestIndex M !! filePath r = Some h -> h = fileHash r ->
  classify (manifestIndex M) r = Unchanged.
Proof. intros Hidx ->. unfold classify. rewrite Hidx, String.eqb_refl. reflexivity. Qed.

Lemma same_path_same_record (L : list FileRecord) r1 r2 :
  NoDup (filePath <$> L) ->
  r1 ∈ L -> r2 ∈ L -> filePath r1 = filePath r2 -> r1 = r2.
Proof.
  induction L as [| r L IH]; intros Hnodup H1 H2 Hpath; [inversion H1 |].
  rewrite fmap_cons in Hnodup. apply NoDup_cons in Hnodup as [Hfresh Hnodup].
  apply elem_of_cons in H1 as [-> | H1]; apply elem_of_cons in H2 as [-> | H2].
  - reflexivity.
  - exfalso. apply Hfresh. rewrite Hpath. apply list_elem_of_fmap_2. exact H2.
  - exfalso. apply Hfresh. rewrite <- Hpath. apply list_elem_of_fmap_2. exact H1.
  - exact (IH Hnodup H1 H2 Hpath).
Qed.

(** C1. Reconciliation completeness: for live records with distinct
    paths and any manifest projection, every path of the live set or of
    the manifest is in one of Added, Modified, Unchanged, Removed, and no
    path at all is in two of them. *)
Theorem reconciliation_partition (L : list FileRecord) (M : list ManifestRow) :
  NoDup (filePath <$> L) ->
  (forall p, p ∈ filePath <$> L \/ p ∈ m_path <$> M ->
     exists c, p ∈ members (reconcile L M) c) /\
  (forall p c1 c2,
     p ∈ members (reconcile L M) c1 -> p ∈ members (reconcile L M) c2 -> c1 = c2).
Proof.
  intros Hnodup. split.
  - intros p Hp.
    destruct (decide (p ∈ filePath <$> L)) as [Hlive | Hdead].
    + apply list_elem_of_fmap in Hlive as (r & -> & Hr).
      exists (classify (manifestIndex M) r). apply members_reconcile.
      pose proof (classify_not_Removed (manifestIndex M) r) as Hnot.
      destruct (classify (manifestIndex M) r) eqn:Hc; try (exists r; auto).
      contradiction.
    + exists Removed. apply members_reconcile. split; [| exact Hdead].
      destruct Hp as [Hp | Hp]; [contradiction | exact Hp].
  - intros p c1 c2 H1 H2. apply members_reconcile in H1, H2.
    assert (Hlive : forall c, c <> Removed ->
              (exists r, r ∈ L /\ filePath r = p /\ classify (manifestIndex M) r = c) ->
              p ∈ filePath <$> L).
    { intros c _ (r & Hr & <- & _). apply list_elem_of_fmap_2. exact Hr. }
    destruct c1, c2; try reflexivity;
      try (destruct H1 as [_ H1]; exfalso; apply H1; eapply Hlive; [| exact H2];
           discriminate);
      try (destruct H2 as [_ H2]; exfalso; apply H2; eapply Hlive; [| exact H1];
           discriminate);
      destruct H1 as (r1 & Hr1 & Hp1 & Hc1); destruct H2 as (r2 & Hr2 & Hp2 & Hc2);
      assert (r1 = r2) by (apply (same_path_same_record L); congruence);
      congruence.
Qed.

(** * The code on the sample repository *)

Example posix_join_plain : Posix.join "/repo" "src" = "/repo/src".
Proof. reflexivity. Qed.

Example posix_join_dot : Posix.join "./repo/" "a.js" = "repo/a.js".
Proof. reflexivity. Qed.

Example posix_extname_js : Posix.extname "/repo/src/a.test.js" = ".js".
Proof. reflexivity. Qed.

Example posix_extname_dotfile : Posix.extname "/repo/.git" = EmptyString.
Proof. reflexivity. Qed.

Example posix_relative_below : Posix.relative "/repo" "/repo/src/a.js" = "src/a.js".
Proof. reflexivity. Qed.

Example win32_relative_below : Win32.relative "C:\proj" "C:\proj/src/a.js" = "src\a.js".
Proof. reflexivity. Qed.

Example scan_sample :
  getFilePaths (host := posix_host) Sample.ignoreList Sample.fileExtensionsToProcess
    "/repo" Sample.tree Sample.start =
  (Ok ["/repo/a.js"; "/repo/b.js"; "/repo/empty.js"; "/repo/src/d.js"],
   {| totalFiles := 5; completedFiles := 0 |}).
Proof. reflexivity. Qed.

(** The sibling of an accepted file is left out when its own extension
    is not accepted. *)
Example sibling_filtered :
  forall paths,
    fst (getFilePaths (host := posix_host) Sample.ignoreList
           Sample.fileExtensionsToProcess "/repo" Sample.tree Sample.start) = Ok paths ->
    In "/repo/a.js" paths /\ ~ In "/repo/notes.txt" paths.
Proof.
  intros paths Hrun. cbv in Hrun. injection Hrun as <-. split.
  - left. reflexivity.
  - intros [H | [H | [H | [H | []]]]]; discriminate H.
Qed.

Lemma extension_filtering_witness :
  fst (getFilePaths (host := posix_host) Sample.ignoreList
         Sample.fileExtensionsToProcess "/repo" Sample.tree Sample.start) =
    Ok ["/repo/a.js"; "/repo/b.js"; "/repo/empty.js"; "/repo/src/d.js"] /\
  ~ In (path_extname (HostPath := posix_host) "/repo/notes.txt")
      Sample.fileExtensionsToProcess /\
  ~ In "/repo/notes.txt" ["/repo/a.js"; "/repo/b.js"; "/repo/empty.js"; "/repo/src/d.js"].
Proof.
  assert (Hrun : fst (getFilePaths (host := posix_host) Sample.ignoreList
                        Sample.fileExtensionsToProcess "/repo" Sample.tree Sample.start) =
                 Ok ["/repo/a.js"; "/repo/b.js"; "/repo/empty.js"; "/repo/src/d.js"])
    by reflexivity.
  assert (Hext : ~ In (path_extname (HostPath := posix_host) "/repo/notes.txt")
                   Sample.fileExtensionsToProcess)
    by (vm_compute; intros [H | []]; discriminate H).
  split; [exact Hrun |]. split; [exact Hext |].
  exact (extension_filtering (host := posix_host) Sample.ignoreList
           Sample.fileExtensionsToProcess "/repo" Sample.tree Sample.start _
           "/repo/notes.txt" Hrun Hext).
Defined.

(** C2, the code at the failing input. The directory [chart.js] is in
    the ignore list and its name ends in an accepted extension: the scan
    does not enter it, and returns its path among the files. *)
Theorem ignored_directory_returned_as_file :
  Js.includes Sample.ignoreList "chart.js" = true /\
  statSync "/repo/chart.js" (Dir 2 [("inner.js", File "w" 50)]) =
    Ok {| isDirectory := true; mtimeMs := 2 |} /\
  fst (getFilePaths (host := posix_host) Sample.ignoreList
         Sample.fileExtensionsToProcess "/repo" Sample.vendored Sample.start) =
    Ok ["/repo/chart.js"; "/repo/main.js"].
Proof. repeat split. Qed.

Lemma scan_failure_propagates_witness :
  encounters Sample.ignoreList "/repo" Sample.guarded ByScandir
    "/repo/src/private" (SealedDir 4) /\
  attempt ByScandir "/repo/src/private" (SealedDir 4) <> None /\
  exists e,
    fst (getFilePaths (host := posix_host) Sample.ignoreList
           Sample.fileExtensionsToProcess "/repo" Sample.guarded Sample.start) = Throw e /\
    exists a' n',
      encounters Sample.ignoreList "/repo" Sample.guarded a' (err_path e) n' /\
      attempt a' (err_path e) n' = Some e.
Proof.
  assert (Henc : encounters Sample.ignoreList "/repo" Sample.guarded ByScandir
                   "/repo/src/private" (SealedDir 4)).
  { apply (enc_below _ "/repo" 1 _ "src"
             (Dir 3 [("private", SealedDir 4); ("d.js", File "v" 60)]));
      [right; left; reflexivity | reflexivity | reflexivity |].
    apply (enc_below _ "/repo/src" 3 _ "private" (SealedDir 4));
      [left; reflexivity | reflexivity | reflexivity |].
    apply enc_root. }
  assert (Hfail : attempt ByScandir "/repo/src/private" (SealedDir 4) <> None)
    by (vm_compute; discriminate).
  split; [exact Henc |]. split; [exact Hfail |].
  exact (scan_failure_propagates (host := posix_host) Sample.ignoreList
           Sample.fileExtensionsToProcess "/repo" Sample.guarded Sample.start
           ByScandir "/repo/src/private" (SealedDir 4) Henc Hfail).
Defined.

Example scan_guarded :
  fst (getFilePaths (host := posix_host) Sample.ignoreList
         Sample.fileExtensionsToProcess "/repo" Sample.guarded Sample.start) =
  Throw {| err_code := EACCES; err_syscall := "scandir"; err_path := "/repo/src/private" |}.
Proof. reflexivity. Qed.

(** C3, against the claim as stated. [empty.js] is scanned and can be
    read, its text has length zero, and [loadFiles] returns no record
    for it. *)
Lemma loadFiles_drops_empty_file :
  fst (getFilePaths (host := posix_host) Sample.ignoreList
         Sample.fileExtensionsToProcess "/repo" Sample.tree Sample.start) =
    Ok ["/repo/a.js"; "/repo/b.js"; "/repo/empty.js"; "/repo/src/d.js"] /\
  fs_readFileSync Sample.repo "/repo/empty.js" = Ok EmptyString /\
  exists files,
    fst (loadFiles (host := posix_host) Sample.ignoreList Sample.fileExtensionsToProcess
           Sample.countTokens Sample.hashFile Sample.repo "/repo" Sample.start) = Ok files /\
    List.map filePath files = ["a.js"; "b.js"; "src/d.js"] /\
    ~ In "empty.js" (List.map filePath files).
Proof.
  split; [reflexivity |]. split; [reflexivity |].
  eexists. split; [vm_compute; reflexivity |]. split; [reflexivity |].
  intros [H | [H | [H | []]]]; discriminate H.
Qed.

Lemma loadFiles_skips_empty_witness :
  fst (getFilePaths (host := posix_host) Sample.ignoreList
         Sample.fileExtensionsToProcess "/repo"
         (default Vanished (lookup_path Sample.repo "/repo")) Sample.start) =
    Ok ["/repo/a.js"; "/repo/b.js"; "/repo/empty.js"; "/repo/src/d.js"] /\
  Forall (fun p => exists content m, lookup_path Sample.repo p = Some (File content m))
    ["/repo/a.js"; "/repo/b.js"; "/repo/empty.js"; "/repo/src/d.js"] /\
  exists files,
    fst (loadFiles (host := posix_host) Sample.ignoreList Sample.fileExtensionsToProcess
           Sample.countTokens Sample.hashFile Sample.repo "/repo" Sample.start) = Ok files /\
    Forall2 (fun p file => exists content m,
               lookup_path Sample.repo p = Some (File content m) /\
               content <> EmptyString /\
               file = {| filePath := Js.replace_backslashes (Posix.relative "/repo" p);
                         fileContent := content;
                         fileTokensCount := Sample.countTokens content;
                         fileHash := Sample.hashFile content;
                         fileTimestamp := m |})
      (List.filter (readsText Sample.repo)
         ["/repo/a.js"; "/repo/b.js"; "/repo/empty.js"; "/repo/src/d.js"]) files.
Proof.
  assert (Hscan :
    fst (getFilePaths (host := posix_host) Sample.ignoreList
           Sample.fileExtensionsToProcess "/repo"
           (default Vanished (lookup_path Sample.repo "/repo")) Sample.start) =
    Ok ["/repo/a.js"; "/repo/b.js"; "/repo/empty.js"; "/repo/src/d.js"]) by reflexivity.
  assert (Hregular :
    Forall (fun p => exists content m, lookup_path Sample.repo p = Some (File content m))
      ["/repo/a.js"; "/repo/b.js"; "/repo/empty.js"; "/repo/src/d.js"])
    by (repeat constructor; eexists; eexists; vm_compute; reflexivity).
  split; [exact Hscan |]. split; [exact Hregular |].
  exact (loadFiles_skips_empty (host := posix_host) Sample.ignoreList
           Sample.fileExtensionsToProcess Sample.countTokens Sample.hashFile
           Sample.repo "/repo" Sample.start _ Hscan Hregular).
Defined.

(** C7, against the claim as stated. On a POSIX host the file named
    [a\b.js] lies directly in the root, so its POSIX relative path is its
    name; [parseFileContent] returns [a/b.js]. *)
Lemma relativePath_rewrites_backslash_in_name :
  Posix.relative "/repo" "/repo/a\b.js" = "a\b.js" /\
  exists file,
    parseFileContent (host := posix_host) Sample.countTokens Sample.hashFile
      Sample.odd "/repo" "/repo/a\b.js" "x" = Ok file /\
    filePath file = "a/b.js" /\
    filePath file <> Posix.relative "/repo" "/repo/a\b.js".
Proof.
  split; [reflexivity |]. eexists. split; [vm_compute; reflexivity |].
  split; [reflexivity |]. vm_compute. discriminate.
Qed.

Lemma relativePath_portable_witness :
  parseFileContent (host := hostAt Win32Platform "C:\Users\dev") Sample.countTokens
    Sample.hashFile Sample.windows "c:\Proj" "C:\proj/src/a.js" "x" =
    Ok {| filePath := "src/a.js"; fileContent := "x"; fileTokensCount := 1;
          fileHash := "h:x"; fileTimestamp := 10 |} /\
  resolveAt Win32Platform "C:\Users\dev" "c:\Proj" = Some ["c:"; "Proj"] /\
  resolveAt Win32Platform "C:\Users\dev" "C:\proj/src/a.js" =
    Some (["C:"; "proj"] ++ ["src"; "a.js"]) /\
  Forall2 (fun a b => sameSegment Win32Platform a b = true) ["c:"; "Proj"] ["C:"; "proj"] /\
  Forall (fun seg => Js.has_char Js.backslash seg = false) ["src"; "a.js"] /\
  Js.has_char Js.backslash "src/a.js" = false /\
  "src/a.js" = Js.join "/" ["src"; "a.js"] /\
  forall os2 cwd2 fs2 dir2 filePathFull2 content2 file2 root2 root2',
    parseFileContent (host := hostAt os2 cwd2) Sample.countTokens Sample.hashFile
      fs2 dir2 filePathFull2 content2 = Ok file2 ->
    resolveAt os2 cwd2 dir2 = Some root2 ->
    resolveAt os2 cwd2 filePathFull2 = Some (root2' ++ ["src"; "a.js"]) ->
    Forall2 (fun a b => sameSegment os2 a b = true) root2 root2' ->
    filePath file2 = "src/a.js".
Proof.
  assert (Hparse :
    parseFileContent (host := hostAt Win32Platform "C:\Users\dev") Sample.countTokens
      Sample.hashFile Sample.windows "c:\Proj" "C:\proj/src/a.js" "x" =
    Ok {| filePath := "src/a.js"; fileContent := "x"; fileTokensCount := 1;
          fileHash := "h:x"; fileTimestamp := 10 |}) by (vm_compute; reflexivity).
  assert (Hroot : resolveAt Win32Platform "C:\Users\dev" "c:\Proj" = Some ["c:"; "Proj"])
    by (vm_compute; reflexivity).
  assert (Hfile : resolveAt Win32Platform "C:\Users\dev" "C:\proj/src/a.js" =
                  Some (["C:"; "proj"] ++ ["src"; "a.js"])) by (vm_compute; reflexivity).
  assert (Hsame : Forall2 (fun a b => sameSegment Win32Platform a b = true)
                    ["c:"; "Proj"] ["C:"; "proj"])
    by (repeat constructor).
  assert (Hsegs : Forall (fun seg => Js.has_char Js.backslash seg = false) ["src"; "a.js"])
    by (repeat constructor).
  split; [exact Hparse |]. split; [exact Hroot |]. split; [exact Hfile |].
  split; [exact Hsame |]. split; [exact Hsegs |].
  destruct (relativePath_portable Sample.countTokens Sample.hashFile Win32Platform
              "C:\Users\dev" Sample.windows "c:\Proj" "C:\proj/src/a.js" "x" _ Hparse)
    as [Hclean Hbelow].
  split; [exact Hclean |].
  exact (Hbelow ["c:"; "Proj"] ["C:"; "proj"] ["src"; "a.js"] Hroot Hfile Hsame Hsegs).
Defined.

(** One tree, scanned from [/proj] on a POSIX host and from [C:\proj] on
    a Windows host: the file [src/a.js] gets the same [filePath], also
    when the Windows root is given relative to the working directory. *)
Example relativePath_on_both_hosts :
  parseFileContent (host := hostAt PosixPlatform "/home/dev") Sample.countTokens
    Sample.hashFile {| fs_root := "/proj"; fs_tree := fs_tree Sample.windows |}
    "/proj" "/proj/src/a.js" "x" =
    Ok {| filePath := "src/a.js"; fileContent := "x"; fileTokensCount := 1;
          fileHash := "h:x"; fileTimestamp := 10 |} /\
  parseFileContent (host := hostAt Win32Platform "C:\Users\dev") Sample.countTokens
    Sample.hashFile Sample.windows "C:\proj" "C:\proj/src/a.js" "x" =
    Ok {| filePath := "src/a.js"; fileContent := "x"; fileTokensCount := 1;
          fileHash := "h:x"; fileTimestamp := 10 |} /\
  Win32.relativeFrom "C:\proj" "src" "src/lib\a.js" = "lib\a.js" /\
  Js.replace_backslashes (Win32.relativeFrom "C:\proj" "src" "src/lib\a.js") = "lib/a.js".
Proof. repeat split; vm_compute; reflexivity. Qed.

Lemma getFiles_shape_witness :
  Forall (fun file => exists rel,
            prop file "filePath" = JsString rel /\
            (truthy (prop file "exists") = true ->
             exists content,
               fs_readFileSync Sample.repo (Posix.join "/repo" rel) = Ok content))
    [Sample.known; Sample.fresh] /\
  exists retFiles,
    getFiles Sample.repo "/repo" [Sample.known; Sample.fresh] = Ok retFiles /\
    length retFiles = length [Sample.known; Sample.fresh] /\
    Forall2 (fun file out => exists rel,
               prop file "filePath" = JsString rel /\
               if truthy (prop file "exists") then
                 exists content,
                   fs_readFileSync Sample.repo (Posix.join "/repo" rel) = Ok content /\
                   out = <["code" := JsString content]> file
               else out = <["code" := JsString newFileCode]> file)
      [Sample.known; Sample.fresh] retFiles.
Proof.
  assert (Hfiles :
    Forall (fun file => exists rel,
              prop file "filePath" = JsString rel /\
              (truthy (prop file "exists") = true ->
               exists content,
                 fs_readFileSync Sample.repo (Posix.join "/repo" rel) = Ok content))
      [Sample.known; Sample.fresh]).
  { constructor; [| constructor; [| constructor]].
    - exists "src/d.js". split; [vm_compute; reflexivity |].
      intros _. exists "v". vm_compute. reflexivity.
    - exists "src/new.js". split; [vm_compute; reflexivity |].
      vm_compute. discriminate. }
  split; [exact Hfiles |].
  exact (getFiles_shape Sample.repo "/repo" [Sample.known; Sample.fresh] Hfiles).
Defined.

Example getFiles_sample :
  getFiles Sample.repo "/repo" [Sample.known; Sample.fresh] =
  Ok [<["code" := JsString "v"]> Sample.known;
      <["code" := JsString "// This is a new file"]> Sample.fresh].
Proof. vm_compute. reflexivity. Qed.

(** C4, against the claim as stated. The INSERT fails with a full disk
    and [insertOrUpdateFile] returns what it returns when nothing
    fails. *)
Lemma failed_upsert_returns_normally :
  nextOutcome
    (getDB Posix.join Sample.getCodeBaseAutopilotDirectory "/repo" Sample.failing).2 =
    Some Sample.diskFull /\
  (insertOrUpdateFile Posix.join Sample.getCodeBaseAutopilotDirectory Sample.countTokens
     "/repo" Sample.aFile "sums" "fs" Sample.failing).1 = Ok tt /\
  (insertOrUpdateFile Posix.join Sample.getCodeBaseAutopilotDirectory Sample.countTokens
     "/repo" Sample.aFile "sums" "fs" Sample.failing).1 =
  (insertOrUpdateFile Posix.join Sample.getCodeBaseAutopilotDirectory Sample.countTokens
     "/repo" Sample.aFile "sums" "fs" Sample.healthy).1 /\
  forall err,
    (insertOrUpdateFile Posix.join Sample.getCodeBaseAutopilotDirectory Sample.countTokens
       "/repo" Sample.aFile "sums" "fs" Sample.failing).1 <> Throw err.
Proof.
  split; [reflexivity |]. split; [reflexivity |]. split; [reflexivity |].
  intros err. discriminate.
Qed.

Lemma upsert_error_logged_not_returned_witness :
  nextOutcome
    (getDB Posix.join Sample.getCodeBaseAutopilotDirectory "/repo" Sample.failing).2 =
    Some Sample.diskFull /\
  (insertOrUpdateFile Posix.join Sample.getCodeBaseAutopilotDirectory Sample.countTokens
     "/repo" Sample.aFile "sums" "fs" Sample.failing).1 = Ok tt /\
  databases
    (insertOrUpdateFile Posix.join Sample.getCodeBaseAutopilotDirectory Sample.countTokens
       "/repo" Sample.aFile "sums" "fs" Sample.failing).2 =
  databases
    (getDB Posix.join Sample.getCodeBaseAutopilotDirectory "/repo" Sample.failing).2 /\
  console
    (insertOrUpdateFile Posix.join Sample.getCodeBaseAutopilotDirectory Sample.countTokens
       "/repo" Sample.aFile "sums" "fs" Sample.failing).2 =
  console
    (getDB Posix.join Sample.getCodeBaseAutopilotDirectory "/repo" Sample.failing).2 ++
  [UpsertError Sample.diskFull].
Proof.
  assert (Hfail :
    nextOutcome
      (getDB Posix.join Sample.getCodeBaseAutopilotDirectory "/repo" Sample.failing).2 =
    Some Sample.diskFull) by reflexivity.
  split; [exact Hfail |].
  exact (upsert_error_logged_not_returned Posix.join Sample.getCodeBaseAutopilotDirectory
           Sample.countTokens "/repo" Sample.aFile "sums" "fs" Sample.failing
           Sample.diskFull Hfail).
Defined.

Example console_of_failed_upsert :
  console
    (insertOrUpdateFile Posix.join Sample.getCodeBaseAutopilotDirectory Sample.countTokens
       "/repo" Sample.aFile "sums" "fs" Sample.failing).2 =
  [Connected "/repo/.autopilot/autopilot.db"; TableCreated; UpsertError Sample.diskFull].
Proof. reflexivity. Qed.

Lemma upsert_full_row_idempotent_witness :
  nextOutcome
    (getDB Posix.join Sample.getCodeBaseAutopilotDirectory "/repo" Sample.healthy).2 = None /\
  (stored
     (insertOrUpdateFile Posix.join Sample.getCodeBaseAutopilotDirectory Sample.countTokens
        "/repo" Sample.aFile "sums" "fs" Sample.healthy).2
     (getDBFilePath Posix.join Sample.getCodeBaseAutopilotDirectory "/repo") "a.js"
     {| path := "a.js"; tokensCount := 1; summary := "sums";
        summaryTokensCount := Sample.countTokens "sums";
        hash := "h:x"; timestamp := 10; dependenciesLibs := "fs" |} /\
   (forall p r, p <> "a.js" ->
      stored
        (insertOrUpdateFile Posix.join Sample.getCodeBaseAutopilotDirectory
           Sample.countTokens "/repo" Sample.aFile "sums" "fs" Sample.healthy).2
        (getDBFilePath Posix.join Sample.getCodeBaseAutopilotDirectory "/repo") p r <->
      stored Sample.healthy
        (getDBFilePath Posix.join Sample.getCodeBaseAutopilotDirectory "/repo") p r) /\
   databases
     (insertOrUpdateFile Posix.join Sample.getCodeBaseAutopilotDirectory Sample.countTokens
        "/repo" Sample.aFile "sums" "fs"
        (insertOrUpdateFile Posix.join Sample.getCodeBaseAutopilotDirectory
           Sample.countTokens "/repo" Sample.aFile "sums" "fs" Sample.healthy).2).2 =
   databases
     (insertOrUpdateFile Posix.join Sample.getCodeBaseAutopilotDirectory Sample.countTokens
        "/repo" Sample.aFile "sums" "fs" Sample.healthy).2).
Proof.
  assert (Hgood :
    nextOutcome
      (getDB Posix.join Sample.getCodeBaseAutopilotDirectory "/repo" Sample.healthy).2 = None)
    by reflexivity.
  split; [exact Hgood |].
  exact (upsert_full_row_idempotent Posix.join Sample.getCodeBaseAutopilotDirectory
           Sample.countTokens "/repo" Sample.aFile "sums" "fs" Sample.healthy Hgood).
Defined.

Example upsert_replaces_whole_row :
  databases
    (insertOrUpdateFile Posix.join Sample.getCodeBaseAutopilotDirectory Sample.countTokens
       "/repo" Sample.aFileEdited "new" "path"
       (insertOrUpdateFile Posix.join Sample.getCodeBaseAutopilotDirectory
          Sample.countTokens "/repo" Sample.aFile "sums" "fs" Sample.healthy).2).2 =
  {[ "/repo/.autopilot/autopilot.db" :=
       {[ "a.js" :=
            {| path := "a.js"; tokensCount := 1; summary := "new"; summaryTokensCount := 3;
               hash := "h:z"; timestamp := 11; dependenciesLibs := "path" |} ]} ]}.
Proof. vm_compute. reflexivity. Qed.

Lemma summary_tokens_coupled_witness :
  stored
    (insertOrUpdateFile Posix.join Sample.getCodeBaseAutopilotDirectory Sample.countTokens
       "/repo" Sample.aFile "sums" "fs" Sample.healthy).2
    "/repo/.autopilot/autopilot.db" "a.js"
    {| path := "a.js"; tokensCount := 1; summary := "sums"; summaryTokensCount := 4;
       hash := "h:x"; timestamp := 10; dependenciesLibs := "fs" |} /\
  (stored Sample.healthy "/repo/.autopilot/autopilot.db" "a.js"
     {| path := "a.js"; tokensCount := 1; summary := "sums"; summaryTokensCount := 4;
        hash := "h:x"; timestamp := 10; dependenciesLibs := "fs" |} \/
   ("sums" = "sums" /\ 4%Z = Sample.countTokens "sums")).
Proof.
  assert (Hstored :
    stored
      (insertOrUpdateFile Posix.join Sample.getCodeBaseAutopilotDirectory
         Sample.countTokens "/repo" Sample.aFile "sums" "fs" Sample.healthy).2
      "/repo/.autopilot/autopilot.db" "a.js"
      {| path := "a.js"; tokensCount := 1; summary := "sums"; summaryTokensCount := 4;
         hash := "h:x"; timestamp := 10; dependenciesLibs := "fs" |}).
  { eexists. split; vm_compute; reflexivity. }
  split; [exact Hstored |].
  exact (summary_tokens_coupled Posix.join Sample.getCodeBaseAutopilotDirectory
           Sample.countTokens "/repo" Sample.aFile "sums" "fs" Sample.healthy
           _ _ _ Hstored).
Defined.

Lemma reconciliation_partition_witness :
  NoDup (filePath <$> [Sample.aFileEdited; Sample.bFile; Sample.newFile]) /\
  (forall p,
     p ∈ filePath <$> [Sample.aFileEdited; Sample.bFile; Sample.newFile] \/
     p ∈ m_path <$> Sample.manifest ->
     exists c,
       p ∈ members
             (reconcile [Sample.aFileEdited; Sample.bFile; Sample.newFile] Sample.manifest)
             c) /\
  (forall p c1 c2,
     p ∈ members
           (reconcile [Sample.aFileEdited; Sample.bFile; Sample.newFile] Sample.manifest)
           c1 ->
     p ∈ members
           (reconcile [Sample.aFileEdited; Sample.bFile; Sample.newFile] Sample.manifest)
           c2 ->
     c1 = c2).
Proof.
  assert (Hnodup : NoDup (filePath <$> [Sample.aFileEdited; Sample.bFile; Sample.newFile])).
  { refine (bool_decide_unpack _ _). vm_compute. exact I. }
  split; [exact Hnodup |].
  exact (reconciliation_partition
           [Sample.aFileEdited; Sample.bFile; Sample.newFile] Sample.manifest Hnodup).
Defined.

Example reconcile_sample :
  reconcile [Sample.aFileEdited; Sample.bFile; Sample.newFile] Sample.manifest =
  {| added := ["new.js"]; modified := ["a.js"]; unchanged := ["b.js"];
     removed := ["old.js"] |}.
Proof. vm_compute. reflexivity. Qed.

(** ** The further facts on the sample repository *)

Lemma indexed_keyed : keyed Run.indexed.
Proof.
  intros db p r Hr. apply stored_lookup in Hr. cbn [Run.indexed databases] in Hr.
  destruct (decide (db = "/repo/.autopilot/autopilot.db")) as [-> | Hdb].
  - rewrite lookup_singleton_eq in Hr. cbn [default from_option id] in Hr.
    destruct (decide (p = "a.js")) as [-> | Hp].
    + rewrite lookup_singleton_eq in Hr. injection Hr as <-. reflexivity.
    + rewrite lookup_singleton_ne in Hr by (intros Heq; apply Hp; symmetry; exact Heq).
      discriminate.
  - rewrite lookup_singleton_ne in Hr by (intros Heq; apply Hdb; symmetry; exact Heq).
    cbn [default from_option id] in Hr. rewrite lookup_empty in Hr. discriminate.
Qed.

Lemma indexedBoth_keyed : keyed Run.indexedBoth.
Proof.
  intros db p r Hr. apply stored_lookup in Hr. cbn [Run.indexedBoth databases] in Hr.
  destruct (decide (db = "/repo/.autopilot/autopilot.db")) as [-> | Hdb].
  - rewrite lookup_singleton_eq in Hr. cbn [default from_option id] in Hr.
    destruct (decide (p = "b.js")) as [-> | Hb].
    + rewrite lookup_insert_eq in Hr. injection Hr as <-. reflexivity.
    + rewrite lookup_insert_ne in Hr by (intros Heq; apply Hb; symmetry; exact Heq).
      destruct (decide (p = "a.js")) as [-> | Ha].
      * rewrite lookup_singleton_eq in Hr. injection Hr as <-. reflexivity.
      * rewrite lookup_singleton_ne in Hr by (intros Heq; apply Ha; symmetry; exact Heq).
        discriminate.
  - rewrite lookup_singleton_ne in Hr by (intros Heq; apply Hdb; symmetry; exact Heq).
    cbn [default from_option id] in Hr. rewrite lookup_empty in Hr. discriminate.
Qed.

Lemma indexed_lacks_b r : ~ stored Run.indexed Run.dbFile "b.js" r.
Proof. intros Hr. apply stored_lookup in Hr. vm_compute in Hr. discriminate. Qed.

Lemma indexed_holds_a : stored Run.indexed Run.dbFile "a.js" Run.aRow.
Proof. apply stored_lookup. vm_compute. reflexivity. Qed.

Lemma scan_returns_exactly_witness :
  fst (Run.scan "/repo" Sample.tree Sample.start) =
    Ok ["/repo/a.js"; "/repo/b.js"; "/repo/empty.js"; "/repo/src/d.js"] /\
  (In "/repo/src/d.js" ["/repo/a.js"; "/repo/b.js"; "/repo/empty.js"; "/repo/src/d.js"] <->
   exists name n,
     scannedEntry Sample.ignoreList "/repo" Sample.tree "/repo/src/d.js" name n /\
     (isDir n = false \/ Js.includes Sample.ignoreList name = true) /\
     Js.includes Sample.fileExtensionsToProcess
       (path_extname (HostPath := posix_host) "/repo/src/d.js") = true).
Proof.
  assert (Hrun : fst (Run.scan "/repo" Sample.tree Sample.start) =
                 Ok ["/repo/a.js"; "/repo/b.js"; "/repo/empty.js"; "/repo/src/d.js"])
    by reflexivity.
  split; [exact Hrun |].
  exact (scan_returns_exactly (host := posix_host) Sample.ignoreList
           Sample.fileExtensionsToProcess "/repo" Sample.tree Sample.start _
           "/repo/src/d.js" Hrun).
Defined.

Lemma loadFiles_counted_witness :
  completedFiles Sample.start <= totalFiles Sample.start /\
  completedFiles (Run.load Sample.repo "/repo" Sample.start).2 <=
  totalFiles (Run.load Sample.repo "/repo" Sample.start).2.
Proof.
  assert (Hstart : completedFiles Sample.start <= totalFiles Sample.start)
    by (vm_compute; lia).
  split; [exact Hstart |].
  exact (loadFiles_counted (host := posix_host) Sample.ignoreList
           Sample.fileExtensionsToProcess Sample.countTokens Sample.hashFile
           Sample.repo "/repo" Sample.start Hstart).
Defined.

Lemma loadFiles_throws_on_unreadable_witness :
  fst (Run.scan "/repo" (default Vanished (lookup_path Run.vendoredRepo "/repo"))
         Sample.start) = Ok ["/repo/chart.js"; "/repo/main.js"] /\
  In "/repo/chart.js" ["/repo/chart.js"; "/repo/main.js"] /\
  fs_readFileSync Run.vendoredRepo "/repo/chart.js" =
    Throw {| err_code := EISDIR; err_syscall := "read"; err_path := "/repo/chart.js" |} /\
  exists e q,
    fst (Run.load Run.vendoredRepo "/repo" Sample.start) = Throw e /\
    In q ["/repo/chart.js"; "/repo/main.js"] /\
    fs_readFileSync Run.vendoredRepo q = Throw e.
Proof.
  assert (Hscan :
    fst (Run.scan "/repo" (default Vanished (lookup_path Run.vendoredRepo "/repo"))
           Sample.start) = Ok ["/repo/chart.js"; "/repo/main.js"]) by reflexivity.
  assert (Hin : In "/repo/chart.js" ["/repo/chart.js"; "/repo/main.js"])
    by (left; reflexivity).
  assert (Hread :
    fs_readFileSync Run.vendoredRepo "/repo/chart.js" =
    Throw {| err_code := EISDIR; err_syscall := "read"; err_path := "/repo/chart.js" |})
    by reflexivity.
  split; [exact Hscan |]. split; [exact Hin |]. split; [exact Hread |].
  exact (loadFiles_throws_on_unreadable (host := posix_host) Sample.ignoreList
           Sample.fileExtensionsToProcess Sample.countTokens Sample.hashFile
           Run.vendoredRepo "/repo" Sample.start _ _ _ Hscan Hin Hread).
Defined.

Lemma loadFiles_records_fingerprinted_witness :
  fst (Run.load Sample.repo "/repo" Sample.start) =
    Ok [Sample.aFile; Sample.bFile;
        {| filePath := "src/d.js"; fileContent := "v"; fileTokensCount := 1;
           fileHash := "h:v"; fileTimestamp := 60 |}] /\
  Forall (fun file =>
            fileContent file <> EmptyString /\
            fileTokensCount file = Sample.countTokens (fileContent file) /\
            fileHash file = Sample.hashFile (fileContent file) /\
            Js.has_char Js.backslash (filePath file) = false)
    [Sample.aFile; Sample.bFile;
     {| filePath := "src/d.js"; fileContent := "v"; fileTokensCount := 1;
        fileHash := "h:v"; fileTimestamp := 60 |}].
Proof.
  assert (Hrun :
    fst (Run.load Sample.repo "/repo" Sample.start) =
    Ok [Sample.aFile; Sample.bFile;
        {| filePath := "src/d.js"; fileContent := "v"; fileTokensCount := 1;
           fileHash := "h:v"; fileTimestamp := 60 |}]) by (vm_compute; reflexivity).
  split; [exact Hrun |].
  exact (loadFiles_records_fingerprinted (host := posix_host) Sample.ignoreList
           Sample.fileExtensionsToProcess Sample.countTokens Sample.hashFile
           Sample.repo "/repo" Sample.start _ Hrun).
Defined.

Lemma loadFiles_completed_is_records_witness :
  Run.load Sample.repo "/repo" Sample.start =
    (Ok [Sample.aFile; Sample.bFile;
         {| filePath := "src/d.js"; fileContent := "v"; fileTokensCount := 1;
            fileHash := "h:v"; fileTimestamp := 60 |}],
     {| totalFiles := 5; completedFiles := 3 |}) /\
  3 = completedFiles Sample.start + 3.
Proof.
  assert (Hrun :
    Run.load Sample.repo "/repo" Sample.start =
    (Ok [Sample.aFile; Sample.bFile;
         {| filePath := "src/d.js"; fileContent := "v"; fileTokensCount := 1;
            fileHash := "h:v"; fileTimestamp := 60 |}],
     {| totalFiles := 5; completedFiles := 3 |})) by (vm_compute; reflexivity).
  split; [exact Hrun |].
  exact (loadFiles_completed_is_records (host := posix_host) Sample.ignoreList
           Sample.fileExtensionsToProcess Sample.countTokens Sample.hashFile
           Sample.repo "/repo" Sample.start _ _ Hrun).
Defined.

Lemma fresh_served :
  Forall (fun f => exists r,
            prop f "filePath" = JsString r /\
            (truthy (prop f "exists") = true ->
             exists content,
               fs_readFileSync Sample.repo (Posix.join "/repo" r) = Ok content))
    [Sample.fresh].
Proof.
  constructor; [| constructor]. exists "src/new.js". split; [vm_compute; reflexivity |].
  vm_compute. discriminate.
Qed.

Lemma getFiles_returns_only_if_all_read_witness :
  getFiles Sample.repo "/repo" [Sample.known; Sample.fresh] =
    Ok [<["code" := JsString "v"]> Sample.known;
        <["code" := JsString newFileCode]> Sample.fresh] /\
  Forall (fun file => exists rel,
            prop file "filePath" = JsString rel /\
            (truthy (prop file "exists") = true ->
             exists content,
               fs_readFileSync Sample.repo (Posix.join "/repo" rel) = Ok content))
    [Sample.known; Sample.fresh].
Proof.
  assert (Hrun :
    getFiles Sample.repo "/repo" [Sample.known; Sample.fresh] =
    Ok [<["code" := JsString "v"]> Sample.known;
        <["code" := JsString newFileCode]> Sample.fresh]) by (vm_compute; reflexivity).
  split; [exact Hrun |].
  exact (getFiles_returns_only_if_all_read Sample.repo "/repo" _ _ Hrun).
Defined.

Lemma getFiles_read_error_propagates_witness :
  Forall (fun f => exists r,
            prop f "filePath" = JsString r /\
            (truthy (prop f "exists") = true ->
             exists content,
               fs_readFileSync Sample.repo (Posix.join "/repo" r) = Ok content))
    [Sample.fresh] /\
  prop Run.missing "filePath" = JsString "gone.js" /\
  truthy (prop Run.missing "exists") = true /\
  fs_readFileSync Sample.repo (Posix.join "/repo" "gone.js") =
    Throw {| err_code := ENOENT; err_syscall := "open"; err_path := "/repo/gone.js" |} /\
  getFiles Sample.repo "/repo" ([Sample.fresh] ++ Run.missing :: [Sample.known]) =
    Throw (FsError {| err_code := ENOENT; err_syscall := "open";
                      err_path := "/repo/gone.js" |}).
Proof.
  assert (Hrel : prop Run.missing "filePath" = JsString "gone.js")
    by (vm_compute; reflexivity).
  assert (Hflag : truthy (prop Run.missing "exists") = true) by (vm_compute; reflexivity).
  assert (Hread :
    fs_readFileSync Sample.repo (Posix.join "/repo" "gone.js") =
    Throw {| err_code := ENOENT; err_syscall := "open"; err_path := "/repo/gone.js" |})
    by (vm_compute; reflexivity).
  split; [exact fresh_served |]. split; [exact Hrel |]. split; [exact Hflag |].
  split; [exact Hread |].
  exact (getFiles_read_error_propagates Sample.repo "/repo" [Sample.fresh] [Sample.known]
           Run.missing "gone.js" _ fresh_served Hrel Hflag Hread).
Defined.

Lemma getFiles_needs_string_filePath_witness :
  Forall (fun f => exists r,
            prop f "filePath" = JsString r /\
            (truthy (prop f "exists") = true ->
             exists content,
               fs_readFileSync Sample.repo (Posix.join "/repo" r) = Ok content))
    [Sample.fresh] /\
  (forall rel, prop Run.pathless "filePath" <> JsString rel) /\
  truthy (prop Run.pathless "exists") = false /\
  getFiles Sample.repo "/repo" ([Sample.fresh] ++ Run.pathless :: [Sample.known]) =
    Throw (TypeError "path").
Proof.
  assert (Hrel : forall rel, prop Run.pathless "filePath" <> JsString rel)
    by (intros rel; vm_compute; discriminate).
  split; [exact fresh_served |]. split; [exact Hrel |]. split; [vm_compute; reflexivity |].
  exact (getFiles_needs_string_filePath Sample.repo "/repo" [Sample.fresh] [Sample.known]
           Run.pathless fresh_served Hrel).
Defined.

Lemma getFiles_keeps_other_properties_witness :
  getFiles Sample.repo "/repo" [Sample.known; Sample.fresh] =
    Ok [<["code" := JsString "v"]> Sample.known;
        <["code" := JsString newFileCode]> Sample.fresh] /\
  Forall2 (fun file out => forall name, name <> "code" -> prop out name = prop file name)
    [Sample.known; Sample.fresh]
    [<["code" := JsString "v"]> Sample.known;
     <["code" := JsString newFileCode]> Sample.fresh].
Proof.
  assert (Hrun :
    getFiles Sample.repo "/repo" [Sample.known; Sample.fresh] =
    Ok [<["code" := JsString "v"]> Sample.known;
        <["code" := JsString newFileCode]> Sample.fresh]) by (vm_compute; reflexivity).
  split; [exact Hrun |].
  exact (getFiles_keeps_other_properties Sample.repo "/repo" _ _ Hrun).
Defined.

Lemma getFiles_again_witness :
  getFiles Sample.repo "/repo" [Sample.known; Sample.fresh] =
    Ok [<["code" := JsString "v"]> Sample.known;
        <["code" := JsString newFileCode]> Sample.fresh] /\
  getFiles Sample.repo "/repo"
    [<["code" := JsString "v"]> Sample.known;
     <["code" := JsString newFileCode]> Sample.fresh] =
    Ok [<["code" := JsString "v"]> Sample.known;
        <["code" := JsString newFileCode]> Sample.fresh].
Proof.
  assert (Hrun :
    getFiles Sample.repo "/repo" [Sample.known; Sample.fresh] =
    Ok [<["code" := JsString "v"]> Sample.known;
        <["code" := JsString newFileCode]> Sample.fresh]) by (vm_compute; reflexivity).
  split; [exact Hrun |].
  exact (getFiles_again Sample.repo "/repo" _ _ Hrun).
Defined.

Lemma deleteFile_removes_row_witness :
  nextOutcome (Run.connect "/repo" Run.indexed).2 = None /\
  (forall r, ~ stored (Run.remove "/repo" "a.js" Run.indexed).2 Run.dbFile "a.js" r) /\
  (forall q r, q <> "a.js" ->
     stored (Run.remove "/repo" "a.js" Run.indexed).2 Run.dbFile q r <->
     stored Run.indexed Run.dbFile q r).
Proof.
  assert (Hgood : nextOutcome (Run.connect "/repo" Run.indexed).2 = None) by reflexivity.
  split; [exact Hgood |].
  exact (deleteFile_removes_row Posix.join Sample.getCodeBaseAutopilotDirectory
           "/repo" "a.js" Run.indexed Hgood).
Defined.

Lemma deleteFile_absent_changes_nothing_witness :
  stored Run.indexed Run.dbFile "a.js" Run.aRow /\
  (forall r, ~ stored Run.indexed Run.dbFile "b.js" r) /\
  (Run.remove "/repo" "b.js" Run.indexed).1 = Ok tt /\
  forall db q r,
    stored (Run.remove "/repo" "b.js" Run.indexed).2 db q r <->
    stored Run.indexed db q r.
Proof.
  split; [exact indexed_holds_a |]. split; [exact indexed_lacks_b |].
  exact (deleteFile_absent_changes_nothing Posix.join Sample.getCodeBaseAutopilotDirectory
           "/repo" "b.js" Run.indexed indexed_lacks_b).
Defined.

Lemma deleteFile_error_logged_not_returned_witness :
  nextOutcome (Run.connect "/repo" Run.indexedFailing).2 = Some Sample.diskFull /\
  (Run.remove "/repo" "a.js" Run.indexedFailing).1 = Ok tt /\
  (forall db q r,
     stored (Run.remove "/repo" "a.js" Run.indexedFailing).2 db q r <->
     stored Run.indexedFailing db q r) /\
  console (Run.remove "/repo" "a.js" Run.indexedFailing).2 =
    console (Run.connect "/repo" Run.indexedFailing).2 ++ [DeleteError Sample.diskFull].
Proof.
  assert (Hfail : nextOutcome (Run.connect "/repo" Run.indexedFailing).2 =
                  Some Sample.diskFull) by reflexivity.
  split; [exact Hfail |].
  exact (deleteFile_error_logged_not_returned Posix.join
           Sample.getCodeBaseAutopilotDirectory "/repo" "a.js" Run.indexedFailing
           Sample.diskFull Hfail).
Defined.

Lemma getDBFiles_lists_stored_rows_witness :
  nextOutcome (Run.connect "/repo" Run.indexed).2 = None /\
  exists rows,
    (Run.listFiles "/repo" Run.indexed).1 = Ok rows /\
    forall m,
      m ∈ rows <->
      exists p r, stored Run.indexed Run.dbFile p r /\
                  m = {| m_path := path r; m_hash := hash r; m_timestamp := timestamp r |}.
Proof.
  assert (Hgood : nextOutcome (Run.connect "/repo" Run.indexed).2 = None) by reflexivity.
  split; [exact Hgood |].
  exact (getDBFiles_lists_stored_rows Posix.join Sample.getCodeBaseAutopilotDirectory
           "/repo" Run.indexed Hgood).
Defined.

Example getDBFiles_indexed :
  (Run.listFiles "/repo" Run.indexed).1 =
  Ok [{| m_path := "a.js"; m_hash := "h:x"; m_timestamp := 10 |}].
Proof. vm_compute. reflexivity. Qed.

Lemma getDBFiles_error_propagates_witness :
  nextOutcome (Run.connect "/repo" Run.indexedFailing).2 = Some Sample.diskFull /\
  (Run.listFiles "/repo" Run.indexedFailing).1 = Throw Sample.diskFull /\
  console (Run.listFiles "/repo" Run.indexedFailing).2 =
    console (Run.connect "/repo" Run.indexedFailing).2 /\
  forall db q r,
    stored (Run.listFiles "/repo" Run.indexedFailing).2 db q r <->
    stored Run.indexedFailing db q r.
Proof.
  assert (Hfail : nextOutcome (Run.connect "/repo" Run.indexedFailing).2 =
                  Some Sample.diskFull) by reflexivity.
  split; [exact Hfail |].
  exact (getDBFiles_error_propagates Posix.join Sample.getCodeBaseAutopilotDirectory
           "/repo" Run.indexedFailing Sample.diskFull Hfail).
Defined.

Lemma keyed_preserved_witness :
  keyed Run.indexed /\
  keyed (Run.upsert "/repo" Sample.bFile "sums" "fs" Run.indexed).2 /\
  keyed (Run.remove "/repo" "a.js" Run.indexed).2 /\
  keyed (Run.create "/repo" Run.indexed) /\
  keyed (Run.listFiles "/repo" Run.indexed).2.
Proof.
  split; [exact indexed_keyed |].
  exact (keyed_preserved Posix.join Sample.getCodeBaseAutopilotDirectory
           Sample.countTokens "/repo" Sample.bFile "sums" "fs" "a.js" Run.indexed
           indexed_keyed).
Defined.

Lemma getDBFiles_distinct_paths_witness :
  keyed Run.indexedBoth /\
  (Run.listFiles "/repo" Run.indexedBoth).1 =
    Ok [{| m_path := "a.js"; m_hash := "h:x"; m_timestamp := 10 |};
        {| m_path := "b.js"; m_hash := "h:y"; m_timestamp := 20 |}] /\
  NoDup (m_path <$> [{| m_path := "a.js"; m_hash := "h:x"; m_timestamp := 10 |};
                     {| m_path := "b.js"; m_hash := "h:y"; m_timestamp := 20 |}]).
Proof.
  assert (Hrun :
    (Run.listFiles "/repo" Run.indexedBoth).1 =
    Ok [{| m_path := "a.js"; m_hash := "h:x"; m_timestamp := 10 |};
        {| m_path := "b.js"; m_hash := "h:y"; m_timestamp := 20 |}])
    by (vm_compute; reflexivity).
  split; [exact indexedBoth_keyed |]. split; [exact Hrun |].
  exact (getDBFiles_distinct_paths Posix.join Sample.getCodeBaseAutopilotDirectory
           "/repo" Run.indexedBoth _ indexedBoth_keyed Hrun).
Defined.

(** ** Scanned paths on the sample repository *)

Lemma tree_wellNamed : wellNamed Sample.tree.
Proof. cbn. unfold Posix.plain. repeat split; try discriminate. Qed.

Lemma d_scanned :
  scannedEntry Sample.ignoreList "/repo" Sample.tree "/repo/src/d.js" "d.js" (File "v" 60).
Proof.
  apply (entry_below _ "/repo" 1 _ "src" (Dir 3 [("d.js", File "v" 60)]));
    [cbn; tauto | reflexivity | reflexivity |].
  exact (entry_here _ (Posix.join "/repo" "src") 3 [("d.js", File "v" 60)] "d.js"
           (File "v" 60) (or_introl eq_refl)).
Qed.


Example d_resolved :
  Posix.resolve "/home/dev" "/repo/src/d.js" = ["repo"; "src"; "d.js"] /\
  Posix.resolve "/home/dev" "repo/src/../src/./d.js" = ["home"; "dev"; "repo"; "src"; "d.js"].
Proof. split; reflexivity. Qed.

Lemma scanned_relativePath_witness :
  wellNamed Sample.tree /\
  scannedEntry Sample.ignoreList "/repo" Sample.tree "/repo/src/d.js" "d.js" (File "v" 60) /\
  parseFileContent (host := hostAt PosixPlatform "/home/dev") Sample.countTokens
    Sample.hashFile Sample.repo "/repo" "/repo/src/d.js" "v" =
    Ok {| filePath := "src/d.js"; fileContent := "v"; fileTokensCount := 1;
          fileHash := "h:v"; fileTimestamp := 60 |} /\
  exists dirs,
    Posix.resolve "/home/dev" "/repo/src/d.js" =
      Posix.resolve "/home/dev" "/repo" ++ dirs ++ ["d.js"] /\
    "src/d.js" = Js.replace_backslashes (Js.join "/" (dirs ++ ["d.js"])).
Proof.
  assert (Hparse :
    parseFileContent (host := hostAt PosixPlatform "/home/dev") Sample.countTokens
      Sample.hashFile Sample.repo "/repo" "/repo/src/d.js" "v" =
    Ok {| filePath := "src/d.js"; fileContent := "v"; fileTokensCount := 1;
          fileHash := "h:v"; fileTimestamp := 60 |}) by (vm_compute; reflexivity).
  split; [exact tree_wellNamed |]. split; [exact d_scanned |]. split; [exact Hparse |].
  exact (scanned_relativePath Sample.ignoreList Sample.countTokens Sample.hashFile
           "/home/dev" Sample.repo "/repo" Sample.tree "/repo/src/d.js" "d.js"
           (File "v" 60) "v" _ tree_wellNamed d_scanned Hparse).
Defined.

(** The two spellings of [relative] agree on the absolute paths of the
    sample repository, and differ on a path that is not absolute: only
    [relativeFrom] takes it from the working directory. *)
Example relative_spellings :
  Posix.relativeFrom "/home/dev" "/repo" "/repo/src/d.js" =
    Posix.relative "/repo" "/repo/src/d.js" /\
  Posix.relativeFrom "/home/dev" "repo" "/home/dev/repo/a.js" = "a.js" /\
  Posix.relativeFrom "/repo" ".." "a.js" = "repo/a.js".
Proof. repeat split; reflexivity. Qed.
